(** * Editing-session core of the image processing studio

    A shallow embedding of [AdvancedImageProcessor]
    (ImageProcessingTool_Working.py): the session state, the bounded
    undo/redo history, the worker protocol of [process_with_progress],
    the effect entry points and the multi-format export, followed by the
    properties of the editing core that are established on this model.

    Conventions.
    - A method of the class becomes a function on [Session]; the fields it
      assigns are rebuilt with the [set_*] functions below.
    - Calls into Pillow, numpy, [os.path] and the Python builtins are the
      fields of the class [Library]: the development holds for every
      behaviour of those calls, including the ones that raise.
    - What the user answers in a dialog (a chosen path, yes/no) is an
      argument of the method that opens the dialog.
    - Dialogs, status-bar texts and redraws are recorded in [ui_log], oldest
      first.
    - A method that can let an exception escape returns the session together
      with that exception; [command] is Tk calling the method from a button
      or a menu. *)

From Stdlib Require Import Ascii String List ZArith Lia Bool Floats.
From Stdlib Require Import DecimalString.
Import ListNotations.

Set Warnings "-inexact-float".
Local Open Scope string_scope.
Local Open Scope list_scope.
Local Open Scope Z_scope.

(** ** Exceptions and fallible calls *)

Inductive ExcType :=
| ValueError | IndexError | NameError | AttributeError
| MemoryError | OSError | RuntimeError.

Record Exn := mkExn { exc_type : ExcType; exc_str : string }.

(** The result of a call that may raise. *)
Inductive Outcome (A : Type) :=
| Returned (a : A)
| Raised (e : Exn).
Arguments Returned {A} a.
Arguments Raised {A} e.

Definition bind {A B} (m : Outcome A) (k : A -> Outcome B) : Outcome B :=
  match m with
  | Returned a => k a
  | Raised e => Raised e
  end.

Notation "x <- m ;; k" := (bind m (fun x => k))
  (at level 61, m at next level, right associativity).

(** ** Images *)

Inductive Mode := L | RGB | RGBA.

(** The pixel content of a PIL image. *)
Record Buffer := mkBuffer {
  mode : Mode;
  width : Z;
  height : Z;
  samples : list Z
}.

(** A PIL [Image] object: its identity and its content.  No method of the
    class mutates an image in place (every transform returns a new object),
    so the content can live in the object. *)
Record Image := mkImage {
  ident : nat;
  buffer : Buffer
}.

Inductive Filter :=
| GaussianBlur (radius : float)
| SHARPEN
| EDGE_ENHANCE
| EMBOSS
| MedianFilter (size : Z)
| UnsharpMask (radius percent threshold : Z).

Inductive Format := PNG | JPEG | WebP.

Definition Format_name (f : Format) : string :=
  match f with PNG => "PNG" | JPEG => "JPEG" | WebP => "WebP" end.

(** ** The libraries the class calls *)

Class Library := {
  (** [int(text)]; [None] stands for the [ValueError] it raises. *)
  int : string -> option Z;
  (** [os.path.basename], [os.path.splitext(...)[0]], [os.path.join]. *)
  basename : string -> string;
  splitext0 : string -> string;
  path_join : string -> string -> string;
  (** [text.strip()]. *)
  strip : string -> string;
  (** [ImageEnhance.X(image).enhance(factor)]. *)
  Brightness_enhance : Buffer -> float -> Outcome Buffer;
  Contrast_enhance : Buffer -> float -> Outcome Buffer;
  Color_enhance : Buffer -> float -> Outcome Buffer;
  Sharpness_enhance : Buffer -> float -> Outcome Buffer;
  (** Methods of [Image] and functions of [ImageOps]. *)
  Image_filter : Buffer -> Filter -> Outcome Buffer;
  Image_convert : Buffer -> Mode -> Outcome Buffer;
  Image_resize : Buffer -> Z -> Z -> Outcome Buffer;
  Image_rotate : Buffer -> Z -> Outcome Buffer;
  Image_transpose_FLIP_LEFT_RIGHT : Buffer -> Outcome Buffer;
  ImageOps_posterize : Buffer -> Z -> Outcome Buffer;
  ImageOps_equalize : Buffer -> Outcome Buffer;
  (** [Image.new('RGB', size, white)] with the image pasted through its
      alpha channel. *)
  paste_on_white : Buffer -> Outcome Buffer;
  (** The numpy array arithmetic of the sepia, psychedelic and temperature
      effects, and the ImageDraw rendering of the watermark: floating-point
      and font code that stays behind this interface. *)
  sepia_array : Buffer -> Outcome Buffer;
  psychedelic_array : Buffer -> Outcome Buffer;
  temperature_array : float -> Buffer -> Outcome Buffer;
  watermark_draw : string -> string -> Buffer -> Outcome Buffer
}.

(** ** User interface traffic *)

Inductive UiEvent :=
| showerror (title message : string)
| showwarning (title message : string)
| showinfo (title message : string)
| status_text (message : string)
| info_text (filename : string) (w h file_size : Z)
| redraw (shown : Buffer) (zoom : float)
| file_saved (path : string) (fmt : Format) (content : Buffer)
  (** Tk's [report_callback_exception]: a traceback on stderr, no dialog. *)
| callback_exception (e : Exn).

(** Callbacks registered with [root.after(0, ...)] by the worker. *)
Inductive Callback :=
| cb_update_image_display
| cb_update_status (message : string)
  (** [lambda: messagebox.showerror("Error", f"Processing failed: {str(e)}")]:
      the closure refers to the variable [e] of [run_process], it does not
      hold the exception. *)
| cb_processing_failed.

(** ** Session state *)

Record Widgets := mkWidgets {
  brightness_var : float;
  contrast_var : float;
  saturation_var : float;
  temperature_var : float;
  width_var : string;
  height_var : string;
  watermark_text : string;
  watermark_position : string
}.

Record Stats := mkStats {
  images_processed : Z;
  operations_performed : Z
}.

Record Session := mkSession {
  current_image : option Image;
  original_image : option Image;
  image_path : option string;
  history : list Image;           (* deque(maxlen=20) *)
  history_index : Z;
  zoom_factor : float;
  widgets : Widgets;
  session_stats : Stats;
  (** The next fresh object identity. *)
  next_ident : nat;
  (** The variable [e] of the running [run_process] frame, [None] when
      unbound. *)
  exc_cell : option Exn;
  (** Tk's queue of [after] callbacks, oldest first. *)
  after_queue : list Callback;
  ui_log : list UiEvent
}.

Definition set_current_image (v : option Image) (s : Session) : Session :=
  mkSession v (original_image s) (image_path s) (history s) (history_index s)
    (zoom_factor s) (widgets s) (session_stats s) (next_ident s) (exc_cell s)
    (after_queue s) (ui_log s).

Definition set_original_image (v : option Image) (s : Session) : Session :=
  mkSession (current_image s) v (image_path s) (history s) (history_index s)
    (zoom_factor s) (widgets s) (session_stats s) (next_ident s) (exc_cell s)
    (after_queue s) (ui_log s).

Definition set_image_path (v : option string) (s : Session) : Session :=
  mkSession (current_image s) (original_image s) v (history s) (history_index s)
    (zoom_factor s) (widgets s) (session_stats s) (next_ident s) (exc_cell s)
    (after_queue s) (ui_log s).

Definition set_history (v : list Image) (s : Session) : Session :=
  mkSession (current_image s) (original_image s) (image_path s) v (history_index s)
    (zoom_factor s) (widgets s) (session_stats s) (next_ident s) (exc_cell s)
    (after_queue s) (ui_log s).

Definition set_history_index (v : Z) (s : Session) : Session :=
  mkSession (current_image s) (original_image s) (image_path s) (history s) v
    (zoom_factor s) (widgets s) (session_stats s) (next_ident s) (exc_cell s)
    (after_queue s) (ui_log s).

Definition set_zoom_factor (v : float) (s : Session) : Session :=
  mkSession (current_image s) (original_image s) (image_path s) (history s)
    (history_index s) v (widgets s) (session_stats s) (next_ident s) (exc_cell s)
    (after_queue s) (ui_log s).

Definition set_widgets (v : Widgets) (s : Session) : Session :=
  mkSession (current_image s) (original_image s) (image_path s) (history s)
    (history_index s) (zoom_factor s) v (session_stats s) (next_ident s)
    (exc_cell s) (after_queue s) (ui_log s).

Definition set_session_stats (v : Stats) (s : Session) : Session :=
  mkSession (current_image s) (original_image s) (image_path s) (history s)
    (history_index s) (zoom_factor s) (widgets s) v (next_ident s)
    (exc_cell s) (after_queue s) (ui_log s).

Definition set_next_ident (v : nat) (s : Session) : Session :=
  mkSession (current_image s) (original_image s) (image_path s) (history s)
    (history_index s) (zoom_factor s) (widgets s) (session_stats s) v
    (exc_cell s) (after_queue s) (ui_log s).

Definition set_exc_cell (v : option Exn) (s : Session) : Session :=
  mkSession (current_image s) (original_image s) (image_path s) (history s)
    (history_index s) (zoom_factor s) (widgets s) (session_stats s)
    (next_ident s) v (after_queue s) (ui_log s).

Definition set_after_queue (v : list Callback) (s : Session) : Session :=
  mkSession (current_image s) (original_image s) (image_path s) (history s)
    (history_index s) (zoom_factor s) (widgets s) (session_stats s)
    (next_ident s) (exc_cell s) v (ui_log s).

Definition set_ui_log (v : list UiEvent) (s : Session) : Session :=
  mkSession (current_image s) (original_image s) (image_path s) (history s)
    (history_index s) (zoom_factor s) (widgets s) (session_stats s)
    (next_ident s) (exc_cell s) (after_queue s) v.

Definition notify (ev : UiEvent) (s : Session) : Session :=
  set_ui_log (ui_log s ++ [ev]) s.

(** [root.after(0, cb)]. *)
Definition after (cb : Callback) (s : Session) : Session :=
  set_after_queue (after_queue s ++ [cb]) s.

(** A new image object holding [b]: what [copy()], [Image.open] and every
    transform return. *)
Definition new_image (b : Buffer) (s : Session) : Image * Session :=
  (mkImage (next_ident s) b, set_next_ident (S (next_ident s)) s).

Definition str (z : Z) : string := NilZero.string_of_int (Z.to_int z).
Arguments str : simpl never.

(** [__init__]: the widgets start at the values the constructor gives them. *)
Definition init : Session :=
  mkSession None None None [] (-1) 1%float
    (mkWidgets 1%float 1%float 1%float 0%float "" "" "© Your Name"
       "bottom-right")
    (mkStats 0 0) O None [] [].

(** ** The history deque *)

Definition maxlen : nat := 20.

(** [deque.append] with [maxlen] set: a full deque drops its leftmost item
    to make room. *)
Definition deque_append (d : list Image) (x : Image) : list Image :=
  if (maxlen <=? length d)%nat then skipn 1 d ++ [x] else d ++ [x].

(** [n] calls of [deque.pop()]; [None] is the [IndexError] of popping an
    empty deque. *)
Fixpoint pop_times (n : nat) (d : list Image) : option (list Image) :=
  match n with
  | O => Some d
  | S n' =>
      match d with
      | [] => None
      | _ :: _ => pop_times n' (removelast d)
      end
  end.

(** [d[i]], with Python's negative indices; [None] is the [IndexError]. *)
Definition getitem (d : list Image) (i : Z) : option Image :=
  let len := Z.of_nat (length d) in
  if (0 <=? i) && (i <? len) then nth_error d (Z.to_nat i)
  else if (- len <=? i) && (i <? 0) then nth_error d (Z.to_nat (len + i))
  else None.

Definition pop_from_empty : Exn := mkExn IndexError "pop from an empty deque".
Definition index_out_of_range : Exn := mkExn IndexError "deque index out of range".

(** A method returns the session it leaves behind and, when it raised, the
    exception that travels on to its caller. *)
Definition Call := (Session * option Exn)%type.

Definition update_status (message : string) (s : Session) : Session :=
  notify (status_text message) s.

(** The canvas redraw: it reads the current image and the zoom and assigns
    no field of the editing core ([self.photo] and the canvas are widgets).
    What is drawn is recorded as it is asked for, the scaling by the zoom
    factor belongs to the view. *)
Definition update_image_display (s : Session) : Session :=
  match current_image s with
  | Some cur => notify (redraw (buffer cur) (zoom_factor s)) s
  | None => s
  end.

Definition add_to_history (s : Session) : Call :=
  match current_image s with
  | None => (s, None)
  | Some cur =>
      let len := Z.of_nat (length (history s)) in
      let popped :=
        if history_index s <? len - 1
        then pop_times (Z.to_nat (len - history_index s - 1)) (history s)
        else Some (history s) in
      match popped with
      | None => (set_history [] s, Some pop_from_empty)
      | Some h =>
          let (snapshot, s1) := new_image (buffer cur) s in
          let h' := deque_append h snapshot in
          (set_history_index (Z.of_nat (length h') - 1) (set_history h' s1),
           None)
      end
  end.

Definition undo (s : Session) : Call :=
  if 0 <? history_index s then
    let s1 := set_history_index (history_index s - 1) s in
    match getitem (history s1) (history_index s1) with
    | None => (s1, Some index_out_of_range)
    | Some entry =>
        let (img, s2) := new_image (buffer entry) s1 in
        let s3 := set_current_image (Some img) s2 in
        (update_status "Undo applied" (update_image_display s3), None)
    end
  else (s, None).

Definition redo (s : Session) : Call :=
  if history_index s <? Z.of_nat (length (history s)) - 1 then
    let s1 := set_history_index (history_index s + 1) s in
    match getitem (history s1) (history_index s1) with
    | None => (s1, Some index_out_of_range)
    | Some entry =>
        let (img, s2) := new_image (buffer entry) s1 in
        let s3 := set_current_image (Some img) s2 in
        (update_status "Redo applied" (update_image_display s3), None)
    end
  else (s, None).

Definition reset_widgets (w : Widgets) : Widgets :=
  mkWidgets 1%float 1%float 1%float 0%float (width_var w) (height_var w)
    (watermark_text w) (watermark_position w).

(** [answer] is what the user replies to "Reset all changes?"; the dialog
    is only shown when an image is loaded. *)
Definition reset_image (answer : bool) (s : Session) : Session :=
  match original_image s with
  | None => s
  | Some orig =>
      if answer then
        let (cur, s1) := new_image (buffer orig) s in
        let s2 := set_current_image (Some cur) s1 in
        let s3 := set_widgets (reset_widgets (widgets s2)) s2 in
        let s4 := set_zoom_factor 1%float s3 in
        let s5 := set_history [] s4 in
        let (snapshot, s6) := new_image (buffer cur) s5 in
        let s7 := set_history (deque_append (history s6) snapshot) s6 in
        let s8 := set_history_index 0 s7 in
        update_status "Image reset" (update_image_display s8)
      else s
  end.

Definition loaded_widgets (b : Buffer) (w : Widgets) : Widgets :=
  mkWidgets 1%float 1%float 1%float 0%float (str (width b)) (str (height b))
    (watermark_text w) (watermark_position w).

Section Core.
Context {lib : Library}.

(** [file_path] is what the file dialog returns (empty when cancelled),
    [opened] the outcome of [Image.open(file_path).convert('RGB')] and
    [file_size] the outcome of [os.path.getsize(file_path)]. *)
Definition open_image (file_path : string) (opened : Outcome Buffer)
    (file_size : Outcome Z) (s : Session) : Session :=
  if String.eqb file_path "" then s
  else
    let failed e :=
      showerror "Error" ("Failed to open image: " ++ exc_str e) in
    let s1 := set_image_path (Some file_path) s in
    match opened with
    | Raised e => notify (failed e) s1
    | Returned b =>
        let (orig, s2) := new_image b s1 in
        let s3 := set_original_image (Some orig) s2 in
        let (cur, s4) := new_image (buffer orig) s3 in
        let s5 := set_current_image (Some cur) s4 in
        match file_size with
        | Raised e => notify (failed e) s5
        | Returned size =>
            let s6 :=
              notify (info_text (basename file_path) (width b) (height b) size)
                s5 in
            let s7 := set_widgets (loaded_widgets b (widgets s6)) s6 in
            let s8 := set_zoom_factor 1%float s7 in
            let s9 := set_history [] s8 in
            let (snapshot, s10) := new_image (buffer cur) s9 in
            let s11 := set_history (deque_append (history s10) snapshot) s10 in
            let s12 := set_history_index 0 s11 in
            let s13 := update_image_display s12 in
            let s14 := update_status ("Loaded: " ++ basename file_path) s13 in
            set_session_stats
              (mkStats (images_processed (session_stats s14) + 1)
                 (operations_performed (session_stats s14))) s14
        end
    end.

(** ** The worker protocol *)

(** What [process_func()] evaluates to on the worker: it reads the session
    when it runs, not when it is created; a returned [None] is the falsy
    result that [if result:] skips. *)
Definition ProcessFunc := Session -> Outcome (option Buffer).

Definition count_operation (st : Stats) : Stats :=
  mkStats (images_processed st) (operations_performed st + 1).

Definition run_process (process_func : ProcessFunc) (s : Session) : Session :=
  match process_func s with
  | Returned (Some result) =>
      let (img, s1) := new_image result s in
      let s2 := set_current_image (Some img) s1 in
      let s3 := after cb_update_image_display s2 in
      let s4 := after (cb_update_status "Operation completed") s3 in
      set_session_stats (count_operation (session_stats s4)) s4
  | Returned None => s
  | Raised exc =>
      (* except Exception as e: *)
      let s1 := set_exc_cell (Some exc) s in
      let s2 := after cb_processing_failed s1 in
      (* the end of the except clause unbinds e *)
      set_exc_cell None s2
  end.

Definition unbound_e : Exn :=
  mkExn NameError
    "cannot access free variable 'e' where it is not associated with a value in enclosing scope".

Definition run_callback (cb : Callback) (s : Session) : Session :=
  match cb with
  | cb_update_image_display => update_image_display s
  | cb_update_status message => update_status message s
  | cb_processing_failed =>
      (* the f-string evaluates str(e) before showerror is called *)
      match exc_cell s with
      | Some e =>
          notify (showerror "Error" ("Processing failed: " ++ exc_str e)) s
      | None => notify (callback_exception unbound_e) s
      end
  end.

(** The Tk main loop serving the pending [after] callbacks in order. *)
Definition mainloop (s : Session) : Session :=
  fold_left (fun acc cb => run_callback cb acc) (after_queue s)
    (set_after_queue [] s).

(** [threading.Thread(target=..., daemon=True).start()], one worker at a
    time.  The session is followed from one idle main loop to the next: the
    worker body runs to its end, then the main loop serves the callbacks the
    worker registered with [after].  A callback is never run inside the
    [after] call that registers it; by the time the main loop comes to it,
    the worker, which only had to return from [after], has left its except
    clause. *)
Definition Thread_start (target : Session -> Session) (s : Session) : Session :=
  mainloop (target s).

Definition process_with_progress (message : string)
    (process_func : ProcessFunc) (s : Session) : Call :=
  match current_image s with
  | None => (s, None)
  | Some _ =>
      match add_to_history s with
      | (s1, Some e) => (s1, Some e)
      | (s1, None) =>
          let s2 := update_status message s1 in
          (Thread_start (run_process process_func) s2, None)
      end
  end.

(** ** Effects *)

Definition no_attribute : Exn :=
  mkExn AttributeError "'NoneType' object has no attribute".

(** A closure body of the form [f(self.current_image)]. *)
Definition on_current (f : Buffer -> Outcome Buffer) : ProcessFunc :=
  fun s =>
    match current_image s with
    | None => Raised no_attribute
    | Some cur => r <- f (buffer cur) ;; Returned (Some r)
    end.

(** Python's [x != 1.0] on floats. *)
Definition differs_from_one (x : float) : bool := negb (PrimFloat.eqb x 1%float).

Definition adjust : ProcessFunc :=
  fun s =>
    match original_image s with
    | None => Raised no_attribute
    | Some orig =>
        let adjusted := buffer orig in
        let brightness := brightness_var (widgets s) in
        adjusted <-
          (if differs_from_one brightness
           then Brightness_enhance adjusted brightness
           else Returned adjusted) ;;
        let contrast := contrast_var (widgets s) in
        adjusted <-
          (if differs_from_one contrast
           then Contrast_enhance adjusted contrast
           else Returned adjusted) ;;
        let saturation := saturation_var (widgets s) in
        adjusted <-
          (if differs_from_one saturation
           then Color_enhance adjusted saturation
           else Returned adjusted) ;;
        Returned (Some adjusted)
    end.

Definition apply_adjustments (s : Session) : Call :=
  match original_image s with
  | None => (s, None)
  | Some _ => process_with_progress "Applying adjustments..." adjust s
  end.

(** The guard [if self.current_image:] of the button handlers. *)
Definition when_loaded (message : string) (process_func : ProcessFunc)
    (s : Session) : Call :=
  match current_image s with
  | None => (s, None)
  | Some _ => process_with_progress message process_func s
  end.

Definition apply_blur : Session -> Call :=
  when_loaded "Applying blur..."
    (on_current (fun img => Image_filter img (GaussianBlur 2%float))).

Definition apply_sharpen : Session -> Call :=
  when_loaded "Applying sharpen..."
    (on_current (fun img => Image_filter img SHARPEN)).

Definition apply_edge_enhance : Session -> Call :=
  when_loaded "Enhancing edges..."
    (on_current (fun img => Image_filter img EDGE_ENHANCE)).

Definition apply_emboss : Session -> Call :=
  when_loaded "Applying emboss..."
    (on_current (fun img => Image_filter img EMBOSS)).

Definition apply_grayscale : Session -> Call :=
  when_loaded "Converting to grayscale..."
    (on_current (fun img => g <- Image_convert img L ;; Image_convert g RGB)).

Definition sepia_effect : ProcessFunc := on_current sepia_array.

Definition apply_sepia : Session -> Call :=
  when_loaded "Applying sepia..." sepia_effect.

Definition oil_effect : ProcessFunc :=
  on_current (fun img =>
    blurred <- Image_filter img (GaussianBlur 1%float) ;;
    ImageOps_posterize blurred 4).

Definition apply_oil_painting : Session -> Call :=
  when_loaded "Applying oil painting..." oil_effect.

Definition apply_posterize : Session -> Call :=
  when_loaded "Applying posterize..."
    (on_current (fun img => ImageOps_posterize img 3)).

Definition psychedelic : ProcessFunc := on_current psychedelic_array.

Definition apply_psychedelic : Session -> Call :=
  when_loaded "Applying psychedelic..." psychedelic.

Definition vintage : ProcessFunc :=
  on_current (fun img =>
    vintage_image <- sepia_array img ;;
    vintage_image <- Image_filter vintage_image (GaussianBlur 0.5%float) ;;
    Brightness_enhance vintage_image 0.9%float).

Definition apply_vintage : Session -> Call :=
  when_loaded "Applying vintage..." vintage.

Definition temp_adjust : ProcessFunc :=
  fun s => on_current (temperature_array (temperature_var (widgets s))) s.

Definition apply_temperature : Session -> Call :=
  when_loaded "Adjusting temperature..." temp_adjust.

Definition apply_denoise : Session -> Call :=
  when_loaded "Reducing noise..."
    (on_current (fun img => Image_filter img (MedianFilter 3))).

Definition histogram_equalization : Session -> Call :=
  when_loaded "Equalizing histogram..." (on_current ImageOps_equalize).

Definition enhance : ProcessFunc :=
  on_current (fun enhanced =>
    enhanced <- Contrast_enhance enhanced 1.2%float ;;
    enhanced <- Color_enhance enhanced 1.1%float ;;
    Sharpness_enhance enhanced 1.1%float).

Definition auto_enhance : Session -> Call :=
  when_loaded "Auto enhancing..." enhance.

Definition apply_unsharp_mask : Session -> Call :=
  when_loaded "Applying unsharp mask..."
    (on_current (fun img => Image_filter img (UnsharpMask 2 150 3))).

Definition resize (width height : Z) : ProcessFunc :=
  on_current (fun img => Image_resize img width height).

Definition resize_image (s : Session) : Call :=
  match current_image s with
  | None => (notify (showwarning "Warning" "No image loaded!") s, None)
  | Some _ =>
      (* try ... except ValueError *)
      let invalid := (notify (showerror "Error" "Invalid dimensions!") s, None) in
      match int (width_var (widgets s)) with
      | None => invalid
      | Some width =>
          match int (height_var (widgets s)) with
          | None => invalid
          | Some height =>
              if (width <=? 0) || (height <=? 0) then invalid
              else
                match process_with_progress "Resizing..." (resize width height) s with
                | (s1, Some e) =>
                    match exc_type e with
                    | ValueError =>
                        (notify (showerror "Error" "Invalid dimensions!") s1, None)
                    | _ => (s1, Some e)
                    end
                | done => done
                end
          end
      end
  end.

Definition rotate (angle : Z) : ProcessFunc :=
  on_current (fun img => Image_rotate img angle).

Definition rotate_image (angle : Z) : Session -> Call :=
  when_loaded ("Rotating " ++ str angle ++ "°...") (rotate angle).

Definition flip_horizontal : Session -> Call :=
  when_loaded "Flipping horizontally..."
    (on_current Image_transpose_FLIP_LEFT_RIGHT).

(** [watermark_text] is read when the request is made, the position when
    the worker runs. *)
Definition add_wm (text : string) : ProcessFunc :=
  fun s => on_current (watermark_draw text (watermark_position (widgets s))) s.

Definition add_watermark (s : Session) : Call :=
  match current_image s with
  | None => (notify (showwarning "Warning" "No image loaded!") s, None)
  | Some _ =>
      (* try ... except Exception as e *)
      let text := strip (watermark_text (widgets s)) in
      if String.eqb text "" then
        (notify (showwarning "Warning" "Enter watermark text!") s, None)
      else
        match process_with_progress "Adding watermark..." (add_wm text) s with
        | (s1, Some e) =>
            (notify
               (showerror "Error" ("Failed to add watermark: " ++ exc_str e))
               s1, None)
        | done => done
        end
  end.

(** ** Export *)

(** What [image.save(path, format)] does to the file system: [None] when the
    file is written, the exception otherwise. *)
Definition Saver := string -> Format -> Buffer -> option Exn.

Definition formats : list (Format * string) :=
  [(PNG, ".png"); (JPEG, ".jpg"); (WebP, ".webp")].

Definition is_JPEG (f : Format) : bool :=
  match f with JPEG => true | _ => false end.

Definition is_RGBA (m : Mode) : bool :=
  match m with RGBA => true | _ => false end.

(** The [for fmt, ext in formats] loop; an exception leaves it at once. *)
Fixpoint export_each (save : Saver) (folder base_name : string) (cur : Buffer)
    (fmts : list (Format * string)) (exported : list Format) (s : Session)
    : Session * Outcome (list Format) :=
  match fmts with
  | [] => (s, Returned exported)
  | (fmt, ext) :: rest =>
      let file_path := path_join folder (base_name ++ ext) in
      let image :=
        if is_JPEG fmt && is_RGBA (mode cur)
        then paste_on_white cur
        else Returned cur in
      match image with
      | Raised e => (s, Raised e)
      | Returned img =>
          match save file_path fmt img with
          | Some e => (s, Raised e)
          | None =>
              export_each save folder base_name cur rest (exported ++ [fmt])
                (notify (file_saved file_path fmt img) s)
          end
      end
  end.

Fixpoint join (sep : string) (l : list string) : string :=
  match l with
  | [] => ""
  | [x] => x
  | x :: rest => x ++ sep ++ join sep rest
  end.

(** The local [base_name] of [export_all_formats]. *)
Definition export_base_name (s : Session) : string :=
  match image_path s with
  | None => "exported_image"
  | Some p =>
      if String.eqb p "" then "exported_image" else splitext0 (basename p)
  end.

(** [folder] is what the directory dialog returns, empty when cancelled. *)
Definition export_all_formats (folder : string) (save : Saver) (s : Session)
    : Session :=
  match current_image s with
  | None => notify (showwarning "Warning" "No image loaded!") s
  | Some cur =>
      if String.eqb folder "" then s
      else
        (* try *)
        let base_name := export_base_name s in
        match export_each save folder base_name (buffer cur) formats [] s with
        | (s1, Returned exported) =>
            let s2 :=
              update_status
                ("Exported " ++ str (Z.of_nat (length exported)) ++ " formats")
                s1 in
            notify
              (showinfo "Success"
                 ("Exported to " ++ folder ++ "\n"
                  ++ join ", " (map Format_name exported))) s2
        | (s1, Raised e) =>
            notify (showerror "Error" ("Export failed: " ++ exc_str e)) s1
        end
  end.

(** ** User actions *)

Inductive Request :=
| ApplyAdjustments | ApplyBlur | ApplySharpen | ApplyEdgeEnhance | ApplyEmboss
| ApplyGrayscale | ApplySepia | ApplyOilPainting | ApplyPosterize
| ApplyPsychedelic | ApplyVintage | ApplyTemperature | ApplyDenoise
| HistogramEqualization | AutoEnhance | ApplyUnsharpMask | ResizeImage
| RotateImage (angle : Z) | FlipHorizontal | AddWatermark.

Definition effect (r : Request) : Session -> Call :=
  match r with
  | ApplyAdjustments => apply_adjustments
  | ApplyBlur => apply_blur
  | ApplySharpen => apply_sharpen
  | ApplyEdgeEnhance => apply_edge_enhance
  | ApplyEmboss => apply_emboss
  | ApplyGrayscale => apply_grayscale
  | ApplySepia => apply_sepia
  | ApplyOilPainting => apply_oil_painting
  | ApplyPosterize => apply_posterize
  | ApplyPsychedelic => apply_psychedelic
  | ApplyVintage => apply_vintage
  | ApplyTemperature => apply_temperature
  | ApplyDenoise => apply_denoise
  | HistogramEqualization => histogram_equalization
  | AutoEnhance => auto_enhance
  | ApplyUnsharpMask => apply_unsharp_mask
  | ResizeImage => resize_image
  | RotateImage angle => rotate_image angle
  | FlipHorizontal => flip_horizontal
  | AddWatermark => add_watermark
  end.

(** Tk running a button or menu command: an exception that leaves the
    handler is reported on stderr and the main loop goes on. *)
Definition command (handler : Session -> Call) (s : Session) : Session :=
  match handler s with
  | (s1, None) => s1
  | (s1, Some e) => notify (callback_exception e) s1
  end.

Inductive Action :=
| Open (file_path : string) (opened : Outcome Buffer) (file_size : Outcome Z)
| Effect (r : Request)
  (** Any other use of [process_with_progress]. *)
| Dispatch (message : string) (process_func : ProcessFunc)
| Undo
| Redo
| Reset (answer : bool)
  (** The user moving sliders or typing into the entries. *)
| Edit (w : Widgets)
| ExportAll (folder : string) (save : Saver).

Definition step (s : Session) (a : Action) : Session :=
  match a with
  | Open file_path opened file_size => open_image file_path opened file_size s
  | Effect r => command (effect r) s
  | Dispatch message process_func =>
      command (process_with_progress message process_func) s
  | Undo => command undo s
  | Redo => command redo s
  | Reset answer => reset_image answer s
  | Edit w => set_widgets w s
  | ExportAll folder save => export_all_formats folder save s
  end.

Definition run (acts : list Action) (s : Session) : Session :=
  fold_left step acts s.

Definition is_request (a : Action) : bool :=
  match a with
  | Effect _ | Dispatch _ _ => true
  | _ => false
  end.

Definition is_edit (a : Action) : bool :=
  match a with
  | Edit _ => true
  | _ => false
  end.

(** The number of effect operations requested in a sequence of actions. *)
Definition requests (acts : list Action) : nat :=
  length (filter is_request acts).

Definition current_buffer (s : Session) : option Buffer :=
  option_map buffer (current_image s).

End Core.

(** ** A library instance that computes

    The concrete runs below need calls that evaluate.  [int] reads an
    optionally signed run of decimal digits, the enhancers shift every
    sample by a fixed amount, and [Image_resize] runs out of memory on a
    canvas of more than 10^8 pixels. *)

Definition digit_value (c : ascii) : option Z :=
  let n := Z.of_nat (nat_of_ascii c) in
  if (48 <=? n) && (n <=? 57) then Some (n - 48) else None.

Fixpoint read_digits (text : string) (acc : Z) : option Z :=
  match text with
  | EmptyString => Some acc
  | String c rest =>
      match digit_value c with
      | Some d => read_digits rest (10 * acc + d)
      | None => None
      end
  end.

Definition read_int (text : string) : option Z :=
  match text with
  | EmptyString => None
  | String "-"%char EmptyString => None
  | String "-"%char rest => option_map Z.opp (read_digits rest 0)
  | _ => read_digits text 0
  end.

Definition shift (d : Z) (b : Buffer) : Outcome Buffer :=
  Returned
    (mkBuffer (mode b) (width b) (height b)
       (map (fun v => Z.min 255 (v + d)) (samples b))).

Definition out_of_memory : Exn := mkExn MemoryError "".

Definition resample (b : Buffer) (w h : Z) : Outcome Buffer :=
  if 100000000 <? w * h then Raised out_of_memory
  else Returned (mkBuffer (mode b) w h (repeat 0 (Z.to_nat (w * h * 3)))).

Definition sample_library : Library := {|
  int := read_int;
  basename := fun p => p;
  splitext0 := fun p => p;
  path_join := fun d f => (d ++ "/" ++ f)%string;
  strip := fun t => t;
  Brightness_enhance := fun b _ => shift 1 b;
  Contrast_enhance := fun b _ => shift 2 b;
  Color_enhance := fun b _ => shift 4 b;
  Sharpness_enhance := fun b _ => shift 8 b;
  Image_filter := fun b _ => shift 16 b;
  Image_convert := fun b m => Returned (mkBuffer m (width b) (height b) (samples b));
  Image_resize := resample;
  Image_rotate := fun b _ =>
    Returned (mkBuffer (mode b) (height b) (width b) (samples b));
  Image_transpose_FLIP_LEFT_RIGHT := fun b => Returned b;
  ImageOps_posterize := fun b _ => shift 32 b;
  ImageOps_equalize := fun b => Returned b;
  paste_on_white := fun b =>
    Returned (mkBuffer RGB (width b) (height b) (samples b));
  sepia_array := fun b => shift 64 b;
  psychedelic_array := fun b => shift 128 b;
  temperature_array := fun _ b => Returned b;
  watermark_draw := fun _ _ b => Returned b
|}.

(** A 2x1 RGB image and the session that has just loaded it. *)
Definition two_pixels : Buffer := mkBuffer RGB 2 1 [10; 20; 30; 40; 50; 60].

Definition fresh_session : Session :=
  open_image (lib := sample_library) "photo.png" (Returned two_pixels)
    (Returned 70) init.

(** A file system in which PNG files cannot be written. *)
Definition png_refused : Saver :=
  fun _ fmt _ =>
    match fmt with
    | PNG => Some (mkExn OSError "cannot write PNG")
    | _ => None
    end.

Definition every_save_works : Saver := fun _ _ _ => None.

(** Three effects in a row. *)
Definition three_effects : list Action :=
  [Effect ApplyBlur; Effect ApplyGrayscale; Effect AutoEnhance].

Definition load_photo : Action :=
  Open "photo.png" (Returned two_pixels) (Returned 70).

(** Nineteen blurs after the load: the history holds 20 entries and the
    cursor is on the last one. *)
Definition full_history : list Action :=
  load_photo :: repeat (Effect ApplyBlur) 19.

(** Two blurs and one undo: the cursor is before the last entry. *)
Definition after_one_undo : list Action :=
  [load_photo; Effect ApplyBlur; Effect ApplyBlur; Undo].

(** The sliders after the user moved brightness to 1.5 and contrast to 0.5
    and left saturation at 1.0. *)
Definition sliders_moved : Widgets :=
  mkWidgets 1.5%float 0.5%float 1%float 0%float "2" "1" "© Your Name"
    "bottom-right".

(** A blur after the load, then the sliders moved: the current image is no
    longer the original one. *)
Definition blur_then_sliders : list Action :=
  [load_photo; Effect ApplyBlur; Edit sliders_moved].

(** The size entries asking for a width of 0. *)
Definition zero_width : Widgets :=
  mkWidgets 1%float 1%float 1%float 0%float "0" "1" "© Your Name"
    "bottom-right".

(** The size entries asking for 100000 x 100000 pixels. *)
Definition huge_target : Widgets :=
  mkWidgets 1%float 1%float 1%float 0%float "100000" "100000" "© Your Name"
    "bottom-right".

Definition before_failure : Session :=
  step (lib := sample_library) fresh_session (Edit huge_target).

(** ** Vocabulary of the statements *)

(** What holds of the session whenever the main loop is idle. *)
Record wf (s : Session) : Prop := {
  wf_index : -1 <= history_index s < Z.of_nat (length (history s));
  wf_capacity : (length (history s) <= maxlen)%nat;
  wf_cell : exc_cell s = None;
  wf_queue : after_queue s = [];
  wf_distinct : NoDup (map ident (history s));
  wf_fresh : Forall (fun e => (ident e < next_ident s)%nat) (history s);
  wf_loaded : current_image s = None -> original_image s = None /\ history s = [];
  wf_original : original_image s = None -> current_image s = None
}.

(** The session right after [add_to_history] stored a copy of [cur]. *)
Definition snapshot_of (cur : Image) (s : Session) : Session :=
  let kept := firstn (Z.to_nat (history_index s + 1)) (history s) in
  let h := deque_append kept (mkImage (next_ident s) (buffer cur)) in
  set_history_index (Z.of_nat (length h) - 1)
    (set_history h (set_next_ident (S (next_ident s)) s)).

(** The session the worker leaves behind, log apart. *)
Definition worker_state (process_func : ProcessFunc) (s : Session) : Session :=
  match process_func s with
  | Returned (Some result) =>
      set_session_stats (count_operation (session_stats s))
        (set_current_image (Some (mkImage (next_ident s) result))
           (set_next_ident (S (next_ident s)) s))
  | _ => s
  end.

(** What the user sees once the worker is done. *)
Definition worker_events (process_func : ProcessFunc) (s : Session)
    : list UiEvent :=
  match process_func s with
  | Returned (Some result) =>
      [redraw result (zoom_factor s); status_text "Operation completed"]
  | Returned None => []
  | Raised _ => [callback_exception unbound_e]
  end.

(** The session after the history entry [entry] at index [i] became current. *)
Definition moved_to (i : Z) (entry : Image) (text : string) (s : Session)
    : Session :=
  set_ui_log
    (ui_log s ++ [redraw (buffer entry) (zoom_factor s); status_text text])
    (set_current_image (Some (mkImage (next_ident s) (buffer entry)))
       (set_next_ident (S (next_ident s)) (set_history_index i s))).

(** The object with identity [i] exists and the history does not hold it. *)
Definition dropped (i : nat) (s : Session) : Prop :=
  (i < next_ident s)%nat /\ ~ In i (map ident (history s)).

(** An action keeps entries of the history or adds objects it creates. *)
Definition extends (s s' : Session) : Prop :=
  (next_ident s <= next_ident s')%nat /\
  forall e, In e (history s') ->
            In e (history s) \/ (next_ident s <= ident e)%nat.

(** The history of a session in which [k] snapshots were taken since the
    load of [b], with the cursor on the last entry: one entry per snapshot
    after the seed, as long as they fit; the seed and the snapshot of the
    first operation both hold [b]. *)
Definition since_load (b : Buffer) (k : nat) (s : Session) : Prop :=
  wf s /\
  history_index s = Z.of_nat (length (history s)) - 1 /\
  match k with
  | O => map buffer (history s) = [b] /\ current_buffer s = Some b
  | S _ =>
      current_image s <> None /\
      length (history s) = Nat.min (k + 1) 20 /\
      nth_error (map buffer (history s)) 0 = Some b /\
      ((k < 20)%nat -> nth_error (map buffer (history s)) 1 = Some b)
  end.

(** One guarded stage of the adjustment group. *)
Definition tone_stage (enhancer : Buffer -> float -> Outcome Buffer)
    (factor : float) (b : Buffer) : Outcome Buffer :=
  if differs_from_one factor then enhancer b factor else Returned b.

(** The entry points that answer an empty session with a dialog. *)
Definition warns_when_empty (r : Request) : bool :=
  match r with
  | ResizeImage | AddWatermark => true
  | _ => false
  end.

(** ** Placing the watermark

    The arithmetic of [add_wm] between [draw.textbbox] and [draw.text]: the
    extent of the text from its bounding box, the point the text is drawn
    at for each anchor, and the plate drawn behind it. *)

Definition margin : Z := 20.
Definition padding : Z := 5.

(** [text_width] and [text_height] from [bbox], the quadruple
    (left, top, right, bottom) that [draw.textbbox((0, 0), ...)] returned. *)
Definition text_extent (bbox : Z * Z * Z * Z) : Z * Z :=
  let '(x0, y0, x1, y1) := bbox in (x1 - x0, y1 - y0).

(** [x] and [y]; any text that is not one of the four corners is the
    [else] branch, the centre. *)
Definition add_wm_xy (position : string) (width height : Z)
    (text_width text_height : Z) : Z * Z :=
  if String.eqb position "bottom-right" then
    (width - text_width - margin, height - text_height - margin)
  else if String.eqb position "bottom-left" then
    (margin, height - text_height - margin)
  else if String.eqb position "top-right" then
    (width - text_width - margin, margin)
  else if String.eqb position "top-left" then
    (margin, margin)
  else
    ((width - text_width) / 2, (height - text_height) / 2).

(** The corners handed to [draw.rectangle]. *)
Definition add_wm_plate (x y text_width text_height : Z) : Z * Z * Z * Z :=
  (x - padding, y - padding, x + text_width + padding,
   y + text_height + padding).

(** What [add_wm] hands to the two drawing calls: the point given to
    [draw.text] and the corners given to [draw.rectangle]. *)
Definition add_wm_layout (position : string) (width height : Z)
    (bbox : Z * Z * Z * Z) : (Z * Z) * (Z * Z * Z * Z) :=
  let '(text_width, text_height) := text_extent bbox in
  let '(x, y) := add_wm_xy position width height text_width text_height in
  ((x, y), add_wm_plate x y text_width text_height).

(** Whether the position names one of the four corners; every other value
    of the combobox variable takes the [else] branch. *)
Definition corner (position : string) : bool :=
  String.eqb position "bottom-right" || String.eqb position "bottom-left"
  || String.eqb position "top-right" || String.eqb position "top-left".

(** Pillow's [draw.textbbox(xy, ...)], the bounding box of the text that
    [draw.text(xy, ...)] draws, is the box for the point (0, 0) moved by
    [xy]. *)
Definition textbbox_at (bbox : Z * Z * Z * Z) (xy : Z * Z) : Z * Z * Z * Z :=
  let '(x0, y0, x1, y1) := bbox in
  let '(x, y) := xy in
  (x + x0, y + y0, x + x1, y + y1).

(** The bounding box of the watermark text where [add_wm] draws it: [bbox]
    is what [draw.textbbox((0, 0), ...)] returned. *)
Definition drawn_text (position : string) (width height : Z)
    (bbox : Z * Z * Z * Z) : Z * Z * Z * Z :=
  textbbox_at bbox (fst (add_wm_layout position width height bbox)).

(** The two end points of the plate behind it. *)
Definition drawn_plate (position : string) (width height : Z)
    (bbox : Z * Z * Z * Z) : Z * Z * Z * Z :=
  snd (add_wm_layout position width height bbox).

(** How far a bounding box (left, top, right, bottom) is from the left, the
    upper, the right and the lower edge of an image; negative where the box
    reaches beyond the edge. *)
Definition gaps (box : Z * Z * Z * Z) (width height : Z) : Z * Z * Z * Z :=
  let '(x0, y0, x1, y1) := box in (x0, y0, width - x1, height - y1).

(** [draw.rectangle] fills its two end points as well: both are pixels of
    the image, whose columns are 0 to [width - 1] and rows 0 to
    [height - 1]. *)
Definition rectangle_inside (box : Z * Z * Z * Z) (width height : Z) : Prop :=
  let '(x0, y0, x1, y1) := box in
  0 <= x0 /\ x1 <= width - 1 /\ 0 <= y0 /\ y1 <= height - 1.

(** ** More vocabulary *)

Definition is_open (a : Action) : bool :=
  match a with
  | Open _ _ _ => true
  | _ => false
  end.

(** The number of loads asked for in a sequence of actions. *)
Definition opens (acts : list Action) : nat :=
  length (filter is_open acts).

(** The content of the history entry under the cursor, [history[history_index]]. *)
Definition at_cursor (s : Session) : option Buffer :=
  option_map buffer (getitem (history s) (history_index s)).

(** The cursor is -1 only on an empty history. *)
Definition anchored (s : Session) : Prop :=
  history_index s = -1 -> history s = [].

(** Two blurs after the load. *)
Definition two_blurs : list Action :=
  [load_photo; Effect ApplyBlur; Effect ApplyBlur].

(** A second file whose size cannot be read. *)
Definition unreadable_size : Outcome Z := Raised (mkExn OSError "stat failed").

Definition other_pixels : Buffer := mkBuffer RGB 1 1 [1; 2; 3].

(** A transform that returns [other_pixels] whatever the session holds. *)
Definition paint_over : ProcessFunc := fun _ => Returned (Some other_pixels).

(** The current image after [two_blurs] in the sample library. *)
Definition blurred_twice : Image :=
  mkImage 6 (mkBuffer RGB 2 1 [42; 52; 62; 72; 82; 92]).

(** The session that loaded the photo and then a second file. *)
Definition reloaded : Session :=
  open_image (lib := sample_library) "other.png" (Returned other_pixels)
    (Returned 3) fresh_session.

(** Everything but a load. *)
Definition no_load : list Action :=
  [Effect ApplyBlur; Undo; Redo; Reset true;
   ExportAll "out" every_save_works].

(** A first load whose size cannot be read: an image is loaded, the history
    is empty and the cursor is -1. *)
Definition size_failed_load : list Action :=
  [Open "photo.png" (Returned two_pixels) unreadable_size].

(** A bounding box of a short text whose origin is not (0, 0): the glyphs
    start two rows below the point. *)
Definition short_text : Z * Z * Z * Z := (0, 2, 62, 11).

(** A file that is not an image, then a reset and an undo. *)
Definition failed_reload : list Action :=
  [Open "notes.txt" (Raised (mkExn OSError "cannot identify image file"))
     unreadable_size;
   Reset true; Undo].

(** * Properties *)

Section Properties.
Context {lib : Library}.

(** ** Frame lemmas *)

(** [fields] unfolds a few field updates of an arbitrary session;
    [evaluate] computes a whole method on a session given by its fields,
    by value, so that the nested updates are not duplicated. *)
Ltac fields :=
  repeat progress
    (unfold update_status, update_image_display, notify, after, new_image,
       set_current_image, set_original_image, set_image_path, set_history,
       set_history_index, set_zoom_factor, set_widgets, set_session_stats,
       set_next_ident, set_exc_cell, set_after_queue, set_ui_log in *;
     simpl in *).

Ltac evaluate :=
  cbv [update_status update_image_display notify after new_image
       set_current_image set_original_image set_image_path set_history
       set_history_index set_zoom_factor set_widgets set_session_stats
       set_next_ident set_exc_cell set_after_queue set_ui_log
       current_image original_image image_path history history_index
       zoom_factor widgets session_stats next_ident exc_cell after_queue
       ui_log moved_to] in *.

Lemma deque_append_nil x : deque_append [] x = [x].
Proof. reflexivity. Qed.

Lemma set_ui_log_same s : set_ui_log (ui_log s) s = s.
Proof. destruct s; reflexivity. Qed.

Lemma set_after_queue_same s : after_queue s = [] -> set_after_queue [] s = s.
Proof. destruct s; simpl; intros ->; reflexivity. Qed.

Lemma Thread_start_run_process process_func s :
  exc_cell s = None -> after_queue s = [] ->
  Thread_start (run_process process_func) s =
  set_ui_log (ui_log s ++ worker_events process_func s)
    (worker_state process_func s).
Proof.
  intros Hc Hq. unfold Thread_start, run_process, worker_state, worker_events.
  destruct (process_func s) as [[result|]|exc].
  - destruct s. evaluate. subst. unfold mainloop. simpl. evaluate.
    rewrite <- !app_assoc. reflexivity.
  - unfold mainloop. rewrite Hq. simpl. rewrite app_nil_r.
    rewrite set_after_queue_same by assumption. symmetry. apply set_ui_log_same.
  - destruct s. evaluate. subst. unfold mainloop. simpl. evaluate.
    reflexivity.
Qed.

Lemma removelast_firstn_pred (d : list Image) :
  removelast d = firstn (length d - 1) d.
Proof.
  rewrite removelast_firstn_len. f_equal. lia.
Qed.

Lemma pop_times_firstn n (d : list Image) :
  (n <= length d)%nat -> pop_times n d = Some (firstn (length d - n) d).
Proof.
  revert d. induction n as [|n IH]; intros d Hn; cbn [pop_times].
  - rewrite Nat.sub_0_r, firstn_all. reflexivity.
  - destruct d as [|x d]; [simpl in Hn; lia|].
    assert (Hlen : length (removelast (x :: d)) = (length (x :: d) - 1)%nat).
    { rewrite removelast_firstn_pred, length_firstn. lia. }
    rewrite IH by lia.
    rewrite Hlen, removelast_firstn_pred, firstn_firstn.
    do 2 f_equal. lia.
Qed.

Lemma add_to_history_snapshot s cur :
  current_image s = Some cur ->
  -1 <= history_index s < Z.of_nat (length (history s)) ->
  add_to_history s = (snapshot_of cur s, None).
Proof.
  intros Hcur Hi. unfold add_to_history, snapshot_of. rewrite Hcur.
  set (len := Z.of_nat (length (history s))) in *.
  assert (Hpop :
    (if history_index s <? len - 1
     then pop_times (Z.to_nat (len - history_index s - 1)) (history s)
     else Some (history s))
    = Some (firstn (Z.to_nat (history_index s + 1)) (history s))).
  { destruct (Z.ltb_spec (history_index s) (len - 1)).
    - rewrite pop_times_firstn by (unfold len in *; lia).
      do 2 f_equal. unfold len in *. lia.
    - rewrite firstn_all2 by (unfold len in *; lia). reflexivity. }
  rewrite Hpop. reflexivity.
Qed.

Lemma process_with_progress_loaded message process_func s cur :
  current_image s = Some cur ->
  -1 <= history_index s < Z.of_nat (length (history s)) ->
  exc_cell s = None -> after_queue s = [] ->
  let s1 := update_status message (snapshot_of cur s) in
  process_with_progress message process_func s =
  (set_ui_log (ui_log s1 ++ worker_events process_func s1)
     (worker_state process_func s1), None).
Proof.
  intros Hcur Hi Hc Hq s1. unfold process_with_progress.
  rewrite Hcur, (add_to_history_snapshot s cur Hcur Hi).
  f_equal. apply Thread_start_run_process; assumption.
Qed.

Lemma command_process_with_progress message process_func s cur :
  wf s -> current_image s = Some cur ->
  let s1 := update_status message (snapshot_of cur s) in
  command (process_with_progress message process_func) s =
  set_ui_log (ui_log s1 ++ worker_events process_func s1)
    (worker_state process_func s1).
Proof.
  intros [Hi _ Hc Hq _ _ _ _] Hcur s1. unfold command.
  rewrite (process_with_progress_loaded message process_func s cur Hcur Hi Hc Hq).
  reflexivity.
Qed.

Lemma command_process_with_progress_empty message process_func s :
  current_image s = None ->
  command (process_with_progress message process_func) s = s.
Proof.
  intros Hcur. unfold command, process_with_progress. rewrite Hcur. reflexivity.
Qed.

(** ** What a dispatched operation leaves behind *)

Lemma dispatch_frame message process_func s cur :
  wf s -> current_image s = Some cur ->
  let s1 := update_status message (snapshot_of cur s) in
  let s2 := command (process_with_progress message process_func) s in
  (history s2 =
     deque_append (firstn (Z.to_nat (history_index s + 1)) (history s))
       (mkImage (next_ident s) (buffer cur)) /\
   history_index s2 = Z.of_nat (length (history s2)) - 1 /\
   (next_ident s < next_ident s2)%nat) /\
  (original_image s2 = original_image s /\
   widgets s2 = widgets s /\
   current_image s1 = Some cur /\
   current_image s2 <> None) /\
  current_buffer s2 =
    match process_func s1 with
    | Returned (Some result) => Some result
    | _ => Some (buffer cur)
    end /\
  session_stats s2 =
    match process_func s1 with
    | Returned (Some _) => count_operation (session_stats s)
    | _ => session_stats s
    end /\
  ui_log s2 =
    ui_log s ++ status_text message :: worker_events process_func s1.
Proof.
  intros Hwf Hcur s1 s2. subst s2.
  rewrite (command_process_with_progress _ _ _ cur Hwf Hcur). fold s1.
  clear Hwf. unfold worker_state, worker_events, current_buffer.
  destruct (process_func s1) as [[result|]|exc]; clear process_func;
    subst s1; destruct s; unfold snapshot_of; evaluate; subst;
    (split; [repeat split; lia|]);
    (split; [repeat split; discriminate|]);
    rewrite <- ?app_assoc; repeat split.
Qed.

(** ** Lists and the deque *)

Lemma NoDup_firstn {A} n (l : list A) : NoDup l -> NoDup (firstn n l).
Proof.
  intros H. rewrite <- (firstn_skipn n l) in H.
  eapply NoDup_app_remove_r; eassumption.
Qed.

Lemma NoDup_skipn {A} n (l : list A) : NoDup l -> NoDup (skipn n l).
Proof.
  intros H. rewrite <- (firstn_skipn n l) in H.
  eapply NoDup_app_remove_l; eassumption.
Qed.

Lemma In_firstn {A} n (l : list A) x : In x (firstn n l) -> In x l.
Proof.
  intros H. rewrite <- (firstn_skipn n l). apply in_or_app. left. exact H.
Qed.

Lemma In_skipn {A} n (l : list A) x : In x (skipn n l) -> In x l.
Proof.
  intros H. rewrite <- (firstn_skipn n l). apply in_or_app. right. exact H.
Qed.

Lemma deque_append_skipn h x :
  deque_append h x =
  skipn (if (maxlen <=? length h)%nat then 1 else 0) h ++ [x].
Proof.
  unfold deque_append. destruct (maxlen <=? length h)%nat; reflexivity.
Qed.

Lemma deque_append_length h x :
  (length h <= maxlen)%nat ->
  (1 <= length (deque_append h x) <= maxlen)%nat.
Proof.
  intros H. rewrite deque_append_skipn, length_app, length_skipn. simpl length.
  destruct (Nat.leb_spec maxlen (length h)); unfold maxlen in *; lia.
Qed.

Lemma deque_append_In h x e :
  In e (deque_append h x) -> In e h \/ e = x.
Proof.
  rewrite deque_append_skipn. intros H. apply in_app_or in H as [H|[H|[]]].
  - left. eapply In_skipn; eassumption.
  - right. symmetry. exact H.
Qed.

Lemma deque_append_NoDup h x :
  NoDup (map ident h) -> ~ In (ident x) (map ident h) ->
  NoDup (map ident (deque_append h x)).
Proof.
  intros Hd Hx. rewrite deque_append_skipn, map_app, <- skipn_map.
  apply NoDup_app.
  - apply NoDup_skipn. exact Hd.
  - constructor; [intros []|constructor].
  - intros a Ha [<-|[]]. apply Hx. eapply In_skipn; eassumption.
Qed.

Lemma fresh_not_In (h : list Image) n :
  Forall (fun e => (ident e < n)%nat) h -> ~ In n (map ident h).
Proof.
  intros Hf Hin. apply in_map_iff in Hin as (e & He & Hin).
  rewrite Forall_forall in Hf. specialize (Hf e Hin). lia.
Qed.

(** ** The idle invariant *)

Lemma wf_init : wf init.
Proof.
  constructor; simpl; try reflexivity; try lia; auto.
  constructor.
Qed.

Lemma wf_set_ui_log s log : wf s -> wf (set_ui_log log s).
Proof. intros [? ? ? ? ? ? ? ?]. constructor; assumption. Qed.

Lemma wf_set_widgets s w : wf s -> wf (set_widgets w s).
Proof. intros [? ? ? ? ? ? ? ?]. constructor; assumption. Qed.

Lemma wf_snapshot_of s cur :
  wf s -> current_image s = Some cur -> wf (snapshot_of cur s).
Proof.
  intros [Hi Hcap Hc Hq Hd Hf Hl Ho] Hcur. unfold snapshot_of.
  set (kept := firstn (Z.to_nat (history_index s + 1)) (history s)).
  set (x := mkImage (next_ident s) (buffer cur)).
  assert (Hk : (length kept <= maxlen)%nat).
  { unfold kept. rewrite length_firstn. lia. }
  assert (Hkf : Forall (fun e => (ident e < next_ident s)%nat) kept).
  { rewrite Forall_forall in *. intros e He. apply Hf.
    eapply In_firstn; eassumption. }
  pose proof (deque_append_length kept x Hk) as Hlen.
  constructor; fields.
  - lia.
  - lia.
  - assumption.
  - assumption.
  - apply deque_append_NoDup.
    + unfold kept. rewrite <- firstn_map. apply NoDup_firstn. exact Hd.
    + apply fresh_not_In. exact Hkf.
  - rewrite Forall_forall in *. intros e He.
    apply deque_append_In in He as [He| ->]; [specialize (Hkf e He)|simpl]; lia.
  - rewrite Hcur. discriminate.
  - exact Ho.
Qed.

Lemma wf_worker_state process_func s :
  wf s -> current_image s <> None -> wf (worker_state process_func s).
Proof.
  intros Hwf Hcur. unfold worker_state.
  destruct (process_func s) as [[result|]|exc]; try assumption.
  destruct Hwf as [Hi Hcap Hc Hq Hd Hf Hl Ho].
  constructor; fields; try assumption.
  - eapply Forall_impl; [|exact Hf]. simpl. intros; lia.
  - discriminate.
  - intros Horig. elim Hcur. apply Ho. exact Horig.
Qed.

Lemma wf_process_with_progress message process_func s :
  wf s -> wf (command (process_with_progress message process_func) s).
Proof.
  intros Hwf. destruct (current_image s) as [cur|] eqn:Hcur.
  - rewrite (command_process_with_progress _ _ _ cur Hwf Hcur).
    apply wf_set_ui_log, wf_worker_state.
    + apply wf_set_ui_log. apply wf_snapshot_of; assumption.
    + unfold snapshot_of. fields. rewrite Hcur. discriminate.
  - rewrite command_process_with_progress_empty; assumption.
Qed.

(** ** Undo and redo *)

Lemma getitem_nth_error d i :
  0 <= i < Z.of_nat (length d) -> getitem d i = nth_error d (Z.to_nat i).
Proof.
  intros H. unfold getitem.
  destruct (Z.leb_spec 0 i); [|lia].
  destruct (Z.ltb_spec i (Z.of_nat (length d))); [|lia]. reflexivity.
Qed.

Lemma nth_error_in_range (d : list Image) n :
  (n < length d)%nat -> exists entry, nth_error d n = Some entry.
Proof.
  intros H. destruct (nth_error d n) eqn:E; [eauto|].
  apply nth_error_None in E. lia.
Qed.

Lemma command_undo s :
  0 < history_index s < Z.of_nat (length (history s)) ->
  exists entry,
    nth_error (history s) (Z.to_nat (history_index s - 1)) = Some entry /\
    command undo s = moved_to (history_index s - 1) entry "Undo applied" s.
Proof.
  intros H.
  destruct (nth_error_in_range (history s) (Z.to_nat (history_index s - 1)))
    as [entry He]; [lia|].
  exists entry. split; [exact He|].
  unfold command, undo. destruct (Z.ltb_spec 0 (history_index s)); [|lia].
  fields. rewrite getitem_nth_error by lia. rewrite He.
  unfold moved_to. fields. rewrite <- app_assoc. reflexivity.
Qed.

Lemma command_undo_bottom s : history_index s <= 0 -> command undo s = s.
Proof.
  intros H. unfold command, undo.
  destruct (Z.ltb_spec 0 (history_index s)); [lia|reflexivity].
Qed.

Lemma command_redo s :
  -1 <= history_index s < Z.of_nat (length (history s)) - 1 ->
  exists entry,
    nth_error (history s) (Z.to_nat (history_index s + 1)) = Some entry /\
    command redo s = moved_to (history_index s + 1) entry "Redo applied" s.
Proof.
  intros H.
  destruct (nth_error_in_range (history s) (Z.to_nat (history_index s + 1)))
    as [entry He]; [lia|].
  exists entry. split; [exact He|].
  unfold command, redo.
  destruct (Z.ltb_spec (history_index s) (Z.of_nat (length (history s)) - 1));
    [|lia].
  fields. rewrite getitem_nth_error by lia. rewrite He.
  unfold moved_to. fields. rewrite <- app_assoc. reflexivity.
Qed.

Lemma command_redo_top s :
  Z.of_nat (length (history s)) - 1 <= history_index s -> command redo s = s.
Proof.
  intros H. unfold command, redo.
  destruct (Z.ltb_spec (history_index s) (Z.of_nat (length (history s)) - 1));
    [lia|reflexivity].
Qed.

Lemma wf_moved_to s i entry text :
  wf s -> 0 <= i < Z.of_nat (length (history s)) ->
  wf (moved_to i entry text s).
Proof.
  intros [Hi Hcap Hc Hq Hd Hf Hl Ho] Hrange.
  constructor; unfold moved_to; fields; try assumption.
  - lia.
  - eapply Forall_impl; [|exact Hf]. simpl. intros; lia.
  - discriminate.
  - intros Horig. destruct (current_image s) eqn:Hcur.
    + specialize (Ho Horig). discriminate.
    + destruct (Hl eq_refl) as [_ Hnil]. rewrite Hnil in Hrange.
      simpl in Hrange. lia.
Qed.

Lemma wf_undo s : wf s -> wf (command undo s).
Proof.
  intros Hwf. destruct (Z.le_gt_cases (history_index s) 0) as [H|H].
  - rewrite command_undo_bottom; assumption.
  - pose proof (wf_index s Hwf) as Hi.
    destruct (command_undo s) as (entry & _ & ->); [lia|].
    apply wf_moved_to; [assumption|lia].
Qed.

Lemma wf_redo s : wf s -> wf (command redo s).
Proof.
  intros Hwf. pose proof (wf_index s Hwf) as Hi.
  destruct (Z.le_gt_cases (Z.of_nat (length (history s)) - 1) (history_index s))
    as [H|H].
  - rewrite command_redo_top; assumption.
  - destruct (command_redo s) as (entry & _ & ->); [lia|].
    apply wf_moved_to; [assumption|lia].
Qed.

(** ** Loading, resetting and exporting *)

Lemma eqb_empty_false text : text <> "" -> String.eqb text "" = false.
Proof. intros H. apply String.eqb_neq. exact H. Qed.

Lemma open_image_loaded file_path b size s :
  file_path <> "" ->
  let s1 := open_image file_path (Returned b) (Returned size) s in
  original_image s1 = Some (mkImage (next_ident s) b) /\
  current_image s1 = Some (mkImage (S (next_ident s)) b) /\
  history s1 = [mkImage (S (S (next_ident s))) b] /\
  history_index s1 = 0 /\
  next_ident s1 = S (S (S (next_ident s))) /\
  exc_cell s1 = exc_cell s /\
  after_queue s1 = after_queue s.
Proof.
  intros Hp s1. subst s1. unfold open_image.
  rewrite (eqb_empty_false _ Hp). destruct s. evaluate.
  repeat split; reflexivity.
Qed.

Ltac wf_field Hf :=
  first
    [ assumption
    | intros; discriminate
    | intros; congruence
    | simpl; lia
    | unfold maxlen; simpl; lia
    | constructor; [intros []|constructor]
    | constructor; [simpl; lia|constructor]
    | eapply Forall_impl; [|exact Hf]; simpl; intros; lia ].

Lemma wf_open_image file_path opened file_size s :
  wf s -> wf (open_image file_path opened file_size s).
Proof.
  intros Hwf. unfold open_image.
  destruct (String.eqb file_path ""); [assumption|].
  destruct Hwf as [Hi Hcap Hc Hq Hd Hf Hl Ho]. destruct s.
  destruct opened as [b|e]; [|constructor; evaluate; assumption].
  destruct file_size as [size|e]; constructor; evaluate;
    rewrite ?deque_append_nil; wf_field Hf.
Qed.

Lemma wf_reset_image answer s : wf s -> wf (reset_image answer s).
Proof.
  intros Hwf. unfold reset_image.
  destruct (original_image s) as [orig|] eqn:Horig; [|assumption].
  destruct answer; [|assumption].
  destruct Hwf as [Hi Hcap Hc Hq Hd Hf Hl Ho]. destruct s.
  constructor; evaluate; rewrite ?deque_append_nil; wf_field Hf.
Qed.

Lemma export_each_log save folder base_name cur fmts exported s :
  exists log,
    fst (export_each save folder base_name cur fmts exported s)
    = set_ui_log log s.
Proof.
  revert exported s. induction fmts as [|[fmt ext] rest IH]; intros exported s.
  - exists (ui_log s). simpl. symmetry. apply set_ui_log_same.
  - cbn [export_each].
    destruct (if is_JPEG fmt && is_RGBA (mode cur)
              then paste_on_white cur else Returned cur) as [img|e].
    + destruct (save _ fmt img) as [e|].
      * exists (ui_log s). simpl. symmetry. apply set_ui_log_same.
      * destruct (IH (exported ++ [fmt])
                    (notify (file_saved (path_join folder (base_name ++ ext))
                               fmt img) s)) as [log Hlog].
        exists log. rewrite Hlog. reflexivity.
    + exists (ui_log s). simpl. symmetry. apply set_ui_log_same.
Qed.

Lemma export_all_formats_log folder save s :
  exists log, export_all_formats folder save s = set_ui_log log s.
Proof.
  unfold export_all_formats.
  destruct (current_image s) as [cur|]; [|eexists; reflexivity].
  destruct (String.eqb folder "").
  { exists (ui_log s). symmetry. apply set_ui_log_same. }
  match goal with
  | |- context [export_each ?sv ?fd ?bn ?cu ?fm ?ex ?st] =>
      destruct (export_each_log sv fd bn cu fm ex st) as [log Hlog];
      destruct (export_each sv fd bn cu fm ex st) as [s1 [exported|exc]]
  end; simpl in Hlog; subst s1; eexists; reflexivity.
Qed.

(** ** Every effect request either only talks to the user or goes through
    [process_with_progress] *)

Lemma command_resize_image s cur :
  wf s -> current_image s = Some cur ->
  command resize_image s =
  match int (width_var (widgets s)), int (height_var (widgets s)) with
  | Some w, Some h =>
      if (w <=? 0) || (h <=? 0)
      then notify (showerror "Error" "Invalid dimensions!") s
      else command (process_with_progress "Resizing..." (resize w h)) s
  | _, _ => notify (showerror "Error" "Invalid dimensions!") s
  end.
Proof.
  intros Hwf Hcur. unfold command, resize_image. rewrite Hcur.
  destruct (int (width_var (widgets s))) as [w|]; [|reflexivity].
  destruct (int (height_var (widgets s))) as [h|]; [|reflexivity].
  destruct ((w <=? 0) || (h <=? 0)); [reflexivity|].
  rewrite (process_with_progress_loaded _ _ s cur Hcur (wf_index s Hwf)
             (wf_cell s Hwf) (wf_queue s Hwf)).
  reflexivity.
Qed.

Lemma command_add_watermark s cur :
  wf s -> current_image s = Some cur ->
  command add_watermark s =
  if String.eqb (strip (watermark_text (widgets s))) ""
  then notify (showwarning "Warning" "Enter watermark text!") s
  else command
         (process_with_progress "Adding watermark..."
            (add_wm (strip (watermark_text (widgets s))))) s.
Proof.
  intros Hwf Hcur. unfold command, add_watermark. rewrite Hcur.
  destruct (String.eqb (strip (watermark_text (widgets s))) "");
    [reflexivity|].
  rewrite (process_with_progress_loaded _ _ s cur Hcur (wf_index s Hwf)
             (wf_cell s Hwf) (wf_queue s Hwf)).
  reflexivity.
Qed.

Lemma effect_cases r s :
  wf s ->
  (exists log, command (effect r) s = set_ui_log log s) \/
  (exists message process_func,
     current_image s <> None /\
     command (effect r) s
     = command (process_with_progress message process_func) s).
Proof.
  intros Hwf.
  assert (Hsame : exists log, s = set_ui_log log s).
  { exists (ui_log s). symmetry. apply set_ui_log_same. }
  destruct (current_image s) as [cur|] eqn:Hcur.
  - assert (Horig : original_image s <> None).
    { intros H. apply (wf_original s Hwf) in H. congruence. }
    destruct r; simpl effect;
      try (right; do 2 eexists; split; [discriminate|];
           unfold command, apply_blur, apply_sharpen, apply_edge_enhance,
             apply_emboss, apply_grayscale, apply_sepia, apply_oil_painting,
             apply_posterize, apply_psychedelic, apply_vintage,
             apply_temperature, apply_denoise, histogram_equalization,
             auto_enhance, apply_unsharp_mask, rotate_image, flip_horizontal,
             when_loaded;
           rewrite Hcur; reflexivity).
    + (* apply_adjustments *)
      right. do 2 eexists. split; [discriminate|].
      unfold command, apply_adjustments.
      destruct (original_image s); [reflexivity|congruence].
    + (* resize_image *)
      rewrite (command_resize_image s cur Hwf Hcur).
      destruct (int (width_var (widgets s))) as [w|]; [|left; eexists; reflexivity].
      destruct (int (height_var (widgets s))) as [h|]; [|left; eexists; reflexivity].
      destruct ((w <=? 0) || (h <=? 0)); [left; eexists; reflexivity|].
      right. exists "Resizing...", (resize w h). split; [discriminate|reflexivity].
    + (* add_watermark *)
      rewrite (command_add_watermark s cur Hwf Hcur).
      destruct (String.eqb (strip (watermark_text (widgets s))) "");
        [left; eexists; reflexivity|].
      right. do 2 eexists. split; [discriminate|reflexivity].
  - left.
    destruct r; simpl effect;
      try (unfold command, apply_blur, apply_sharpen, apply_edge_enhance,
             apply_emboss, apply_grayscale, apply_sepia, apply_oil_painting,
             apply_posterize, apply_psychedelic, apply_vintage,
             apply_temperature, apply_denoise, histogram_equalization,
             auto_enhance, apply_unsharp_mask, rotate_image, flip_horizontal,
             when_loaded;
           rewrite Hcur; exact Hsame).
    + unfold command, apply_adjustments, process_with_progress.
      destruct (original_image s); rewrite ?Hcur; exact Hsame.
    + unfold command, resize_image. rewrite Hcur. eexists; reflexivity.
    + unfold command, add_watermark. rewrite Hcur. eexists; reflexivity.
Qed.

Lemma wf_step s a : wf s -> wf (step s a).
Proof.
  intros Hwf. destruct a; simpl.
  - apply wf_open_image; assumption.
  - destruct (effect_cases r s Hwf) as [[log ->]|(m & f & _ & ->)].
    + apply wf_set_ui_log; assumption.
    + apply wf_process_with_progress; assumption.
  - apply wf_process_with_progress; assumption.
  - apply wf_undo; assumption.
  - apply wf_redo; assumption.
  - apply wf_reset_image; assumption.
  - apply wf_set_widgets; assumption.
  - destruct (export_all_formats_log folder save s) as [log ->].
    apply wf_set_ui_log; assumption.
Qed.

Lemma wf_run acts s : wf s -> wf (run acts s).
Proof.
  revert s. induction acts as [|a acts IH]; intros s Hwf; [exact Hwf|].
  simpl. apply IH, wf_step, Hwf.
Qed.

Lemma run_app acts1 acts2 s : run (acts1 ++ acts2) s = run acts2 (run acts1 s).
Proof. unfold run. apply fold_left_app. Qed.

(** ** Where history entries come from *)

Lemma extends_log s log : extends s (set_ui_log log s).
Proof. split; [apply Nat.le_refl|]. intros e He. left. exact He. Qed.

Lemma extends_moved_to s i entry text : extends s (moved_to i entry text s).
Proof.
  split; unfold moved_to; fields; [lia|]. intros e He. left. exact He.
Qed.

Lemma extends_process_with_progress message process_func s :
  wf s -> extends s (command (process_with_progress message process_func) s).
Proof.
  intros Hwf. destruct (current_image s) as [cur|] eqn:Hcur.
  - destruct (dispatch_frame message process_func s cur Hwf Hcur)
      as ((Hh & _ & Hn) & _).
    split; [lia|]. intros e He. rewrite Hh in He.
    apply deque_append_In in He as [He| ->].
    + left. eapply In_firstn; eassumption.
    + right. simpl. lia.
  - rewrite command_process_with_progress_empty by assumption.
    split; [apply Nat.le_refl|]. intros e He. left. exact He.
Qed.

Lemma extends_refl s : extends s s.
Proof. split; [apply Nat.le_refl|]. intros e He. left. exact He. Qed.

Ltac extends_field :=
  split; evaluate; rewrite ?deque_append_nil;
  [simpl; lia
  |let e := fresh "e" in
   let He := fresh "He" in
   intros e He;
   first [left; exact He|destruct He as [<-|[]]; right; simpl; lia]].

Lemma extends_step s a : wf s -> extends s (step s a).
Proof.
  intros Hwf. destruct a; simpl.
  - unfold open_image. destruct (String.eqb file_path "");
      [apply extends_refl|].
    clear Hwf. destruct opened as [b|exc]; [destruct file_size as [size|exc]|];
      destruct s; extends_field.
  - destruct (effect_cases r s Hwf) as [[log ->]|(m & f & _ & ->)].
    + apply extends_log.
    + apply extends_process_with_progress; assumption.
  - apply extends_process_with_progress; assumption.
  - pose proof (wf_index s Hwf).
    destruct (Z.le_gt_cases (history_index s) 0).
    + rewrite command_undo_bottom by assumption. apply extends_refl.
    + destruct (command_undo s) as (entry & _ & ->); [lia|].
      apply extends_moved_to.
  - pose proof (wf_index s Hwf).
    destruct (Z.le_gt_cases (Z.of_nat (length (history s)) - 1)
                (history_index s)).
    + rewrite command_redo_top by assumption. apply extends_refl.
    + destruct (command_redo s) as (entry & _ & ->); [lia|].
      apply extends_moved_to.
  - unfold reset_image. destruct (original_image s) as [orig|];
      [|apply extends_refl].
    destruct answer; [|apply extends_refl].
    clear Hwf. destruct s; extends_field.
  - apply (extends_log s (ui_log s)).
  - destruct (export_all_formats_log folder save s) as [log ->].
    apply extends_log.
Qed.

Lemma dropped_extends i s s' : dropped i s -> extends s s' -> dropped i s'.
Proof.
  intros [Hlt Hnot] [Hle Hin]. split; [lia|].
  intros H. apply in_map_iff in H as (e & He & Hmem).
  destruct (Hin e Hmem) as [Hold|Hnew].
  - apply Hnot. apply in_map_iff. exists e. split; assumption.
  - lia.
Qed.

Lemma dropped_run i acts s : wf s -> dropped i s -> dropped i (run acts s).
Proof.
  revert s. induction acts as [|a acts IH]; intros s Hwf Hd; [exact Hd|].
  simpl. apply IH.
  - apply wf_step; assumption.
  - eapply dropped_extends; [exact Hd|]. apply extends_step; assumption.
Qed.

Lemma iter_undo_run n s :
  Nat.iter n (command undo) s = run (repeat Undo n) s.
Proof.
  revert s. induction n as [|n IH]; intros s; [reflexivity|].
  rewrite Nat.iter_succ_r. simpl. apply IH.
Qed.

Lemma getitem_In d i e : getitem d i = Some e -> In e d.
Proof.
  unfold getitem. intros H.
  destruct ((0 <=? i) && (i <? Z.of_nat (length d))).
  - eapply nth_error_In; eassumption.
  - destruct ((- Z.of_nat (length d) <=? i) && (i <? 0)); [|discriminate].
    eapply nth_error_In; eassumption.
Qed.

Lemma iter_fixed {A} (f : A -> A) x n : f x = x -> Nat.iter n f x = x.
Proof.
  intros H. induction n as [|n IH]; [reflexivity|]. simpl. rewrite IH. exact H.
Qed.

(** What [k+1] undo calls leave as the current content: the entry [k+1]
    places before the cursor, or the first entry when there are fewer. *)
Lemma undo_iter_reads k : forall s,
  wf s -> 1 <= history_index s ->
  current_buffer (Nat.iter (S k) (command undo) s) =
  option_map buffer
    (nth_error (history s)
       (Z.to_nat (Z.max 0 (history_index s - 1 - Z.of_nat k)))).
Proof.
  induction k as [|k IH]; intros s Hwf Hidx;
    pose proof (wf_index s Hwf) as Hi;
    destruct (command_undo s) as (entry & Hentry & Hundo); try lia.
  - simpl Nat.iter. rewrite Hundo.
    replace (Z.max 0 (history_index s - 1 - Z.of_nat 0))
      with (history_index s - 1) by lia.
    rewrite Hentry. reflexivity.
  - rewrite Nat.iter_succ_r, Hundo.
    set (s1 := moved_to (history_index s - 1) entry "Undo applied" s).
    assert (Hwf1 : wf s1) by (apply wf_moved_to; [exact Hwf|lia]).
    assert (Hh1 : history s1 = history s) by reflexivity.
    assert (Hi1 : history_index s1 = history_index s - 1) by reflexivity.
    destruct (Z.le_gt_cases 1 (history_index s1)) as [Hge|Hlt].
    + rewrite (IH s1 Hwf1 Hge), Hh1, Hi1. do 3 f_equal. lia.
    + rewrite iter_fixed by (apply command_undo_bottom; lia).
      replace (Z.max 0 (history_index s - 1 - Z.of_nat (S k)))
        with (history_index s - 1) by lia.
      rewrite Hentry. reflexivity.
Qed.

(** ** The bounded history *)

(** C3.  Whatever the user does (loading, effects, undo, redo, reset,
    export), the history never holds more than 20 entries.  When it holds 20
    and the cursor is on the last one, the snapshot taken by the next
    dispatched operation drops the oldest entry [old]: the history becomes
    the 19 younger entries followed by the new snapshot.  Undo calls made
    right away walk back through the old entries 19 down to 1 and stop
    there.  And through any further actions and any number of undo calls,
    [old] is not in the history and no index of the history yields it. *)
Theorem history_capacity :
  forall acts : list Action,
    (length (history (run acts init)) <= 20)%nat /\
    forall old message process_func,
      hd_error (history (run acts init)) = Some old ->
      length (history (run acts init)) = 20%nat ->
      history_index (run acts init) = 19 ->
      let s1 := step (run acts init) (Dispatch message process_func) in
      (exists cur,
         current_image (run acts init) = Some cur /\
         history s1 =
         skipn 1 (history (run acts init))
         ++ [mkImage (next_ident (run acts init)) (buffer cur)]) /\
      (forall k,
         current_buffer (Nat.iter (S k) (command undo) s1) =
         option_map buffer
           (nth_error (history (run acts init))
              (Z.to_nat (Z.max 1 (19 - Z.of_nat k))))) /\
      forall (later : list Action) (n : nat),
        let s2 := Nat.iter n (command undo) (run later s1) in
        (length (history s2) <= 20)%nat /\
        ~ In (ident old) (map ident (history s2)) /\
        forall i, getitem (history s2) i <> Some old.
Proof.
  intros acts. pose proof (wf_run acts init wf_init) as Hwf.
  set (s := run acts init) in *. split; [exact (wf_capacity s Hwf)|].
  intros old message process_func Hhd Hlen Hidx s1.
  destruct (history s) as [|old' rest] eqn:Hh; [discriminate|].
  injection Hhd as ->.
  destruct (current_image s) as [cur|] eqn:Hcur.
  2:{ destruct (wf_loaded s Hwf Hcur) as [_ Hnil]. congruence. }
  assert (Hs1 : history s1 = rest ++ [mkImage (next_ident s) (buffer cur)]
                /\ history_index s1 = 19
                /\ (next_ident s < next_ident s1)%nat).
  { destruct (dispatch_frame message process_func s cur Hwf Hcur)
      as ((Hh1 & Hi1 & Hn1) & _).
    assert (Hh1' : history s1
                   = rest ++ [mkImage (next_ident s) (buffer cur)]).
    { subst s1. simpl step. rewrite Hh1, Hh, Hidx.
      rewrite firstn_all2 by (rewrite Hlen; simpl; lia).
      unfold deque_append. rewrite Hlen. reflexivity. }
    split; [exact Hh1'|]. split; [|exact Hn1].
    subst s1. simpl step. simpl step in Hh1'. rewrite Hi1, Hh1', length_app.
    simpl in Hlen. simpl length. lia. }
  destruct Hs1 as (Hh1 & Hi1 & Hn1).
  split; [exists cur; split; [reflexivity|exact Hh1]|].
  assert (Hwf1 : wf s1) by (apply wf_step; exact Hwf).
  split.
  { intros k. rewrite (undo_iter_reads k s1 Hwf1) by lia.
    rewrite Hh1, Hi1. f_equal.
    replace (Z.to_nat (Z.max 1 (19 - Z.of_nat k)))
      with (S (Z.to_nat (Z.max 0 (19 - 1 - Z.of_nat k)))) by lia.
    cbn [nth_error]. apply nth_error_app1. simpl in Hlen. lia. }
  assert (Hdrop : dropped (ident old) s1).
  { split.
    - pose proof (wf_fresh s Hwf) as Hf. rewrite Hh in Hf.
      inversion Hf; subst. lia.
    - rewrite Hh1, map_app. intros Hin. apply in_app_or in Hin as [Hin|Hin].
      + pose proof (wf_distinct s Hwf) as Hd. rewrite Hh in Hd.
        simpl in Hd. inversion Hd; subst. contradiction.
      + simpl in Hin. destruct Hin as [Hin|[]].
        pose proof (wf_fresh s Hwf) as Hf. rewrite Hh in Hf.
        inversion Hf; subst. lia. }
  intros later n s2. subst s2. rewrite iter_undo_run, <- run_app.
  pose proof (wf_run (later ++ repeat Undo n) s1 Hwf1) as Hwf2.
  pose proof (dropped_run (ident old) (later ++ repeat Undo n) s1 Hwf1 Hdrop)
    as [_ Hnot].
  split; [exact (wf_capacity _ Hwf2)|]. split; [exact Hnot|].
  intros i Hi. apply Hnot. apply in_map. eapply getitem_In. exact Hi.
Qed.

(** ** Undoing back to the load *)

Lemma since_load_dispatch b k message process_func s :
  since_load b k s -> (k < 20)%nat ->
  since_load b (S k) (command (process_with_progress message process_func) s).
Proof.
  intros (Hwf & Hidx & Hk) Hlt.
  assert (Hcur : exists cur, current_image s = Some cur /\
                             (k = O -> buffer cur = b)).
  { destruct k.
    - destruct Hk as [_ Hb]. unfold current_buffer in Hb.
      destruct (current_image s) as [cur|]; [|discriminate].
      exists cur. split; [reflexivity|]. intros _. simpl in Hb. congruence.
    - destruct Hk as [Hne _]. destruct (current_image s) as [cur|];
        [|congruence]. exists cur. split; [reflexivity|discriminate]. }
  destruct Hcur as (cur & Hcur & Hcb).
  pose proof (wf_process_with_progress message process_func s Hwf) as Hwf'.
  rewrite (command_process_with_progress _ _ _ cur Hwf Hcur) in *.
  set (s1 := update_status message (snapshot_of cur s)) in *.
  assert (Hs1 :
    history s1 = deque_append (history s) (mkImage (next_ident s) (buffer cur))
    /\ history_index s1 = Z.of_nat (length (history s1)) - 1
    /\ current_image s1 = Some cur).
  { subst s1. unfold snapshot_of. fields.
    rewrite firstn_all2 by lia. auto. }
  destruct Hs1 as (Hh1 & Hi1 & Hc1).
  assert (Hkeep :
    history (worker_state process_func s1) = history s1 /\
    history_index (worker_state process_func s1) = history_index s1 /\
    current_image (worker_state process_func s1) <> None).
  { unfold worker_state.
    destruct (process_func s1) as [[result|]|exc]; fields;
      repeat split; try reflexivity; try discriminate;
      rewrite Hc1; discriminate. }
  destruct Hkeep as (Hh2 & Hi2 & Hc2).
  split; [exact Hwf'|]. split.
  { fields. rewrite Hi2, Hh2. exact Hi1. }
  split; [exact Hc2|].
  fields. rewrite Hh2, Hh1. clear Hh2 Hi2 Hc2 Hwf'.
  unfold deque_append.
  destruct k as [|k].
  - destruct Hk as [Hb _].
    destruct (history s) as [|e0 [|e1 rest]]; try discriminate.
    simpl in Hb. injection Hb as Hb. simpl.
    repeat split; try congruence. intros _. rewrite Hcb; reflexivity.
  - destruct Hk as (_ & Hlen & H0 & H1).
    destruct (history s) as [|e0 [|e1 rest]] eqn:Hh;
      [simpl in H0; discriminate| |].
    { simpl in Hlen. lia. }
    specialize (H1 Hlt). simpl in H0, H1.
    destruct (Nat.leb_spec maxlen (length (e0 :: e1 :: rest))) as [Hfull|Hroom];
      unfold maxlen in *.
    + simpl skipn. rewrite length_app. simpl length in *. split; [lia|].
      split; [simpl; exact H1|]. intros Hk'. lia.
    + rewrite length_app. simpl length in *. split; [lia|].
      split; [simpl; exact H0|]. intros _. simpl. exact H1.
Qed.

Lemma since_load_log b k log s : since_load b k s -> since_load b k (set_ui_log log s).
Proof.
  intros (Hwf & Hidx & Hk). split; [apply wf_set_ui_log; exact Hwf|].
  split; [exact Hidx|exact Hk].
Qed.

Lemma since_load_step b k s a :
  since_load b k s ->
  is_request a || is_edit a = true ->
  (k + (if is_request a then 1 else 0) <= 20)%nat ->
  exists k',
    (k <= k' <= k + (if is_request a then 1 else 0))%nat /\
    since_load b k' (step s a).
Proof.
  intros Hs Ha Hk. destruct a; try discriminate; simpl in *.
  - destruct (effect_cases r s (proj1 Hs)) as [[log ->]|(m & f & _ & ->)].
    + exists k. split; [lia|]. apply since_load_log. exact Hs.
    + exists (S k). split; [lia|]. apply since_load_dispatch; [exact Hs|lia].
  - exists (S k). split; [lia|]. apply since_load_dispatch; [exact Hs|lia].
  - exists k. split; [lia|]. destruct Hs as (Hwf & Hidx & Hk').
    split; [apply wf_set_widgets; exact Hwf|]. split; [exact Hidx|exact Hk'].
Qed.

Lemma since_load_run b acts : forall k s,
  since_load b k s ->
  forallb (fun a => is_request a || is_edit a) acts = true ->
  (k + requests acts <= 20)%nat ->
  exists k', (k' <= k + requests acts)%nat /\ since_load b k' (run acts s).
Proof.
  induction acts as [|a acts IH]; intros k s Hs Hall Hk.
  - exists k. split; [lia|exact Hs].
  - simpl in Hall. apply andb_prop in Hall as [Ha Hall].
    assert (Hreq : requests (a :: acts)
                   = ((if is_request a then 1 else 0) + requests acts)%nat).
    { unfold requests. simpl. destruct (is_request a); reflexivity. }
    rewrite Hreq in *.
    destruct (since_load_step b k s a Hs Ha) as (k1 & Hk1 & Hs1); [lia|].
    destruct (IH k1 (step s a) Hs1 Hall) as (k' & Hk' & Hs'); [lia|].
    exists k'. split; [lia|exact Hs'].
Qed.

Lemma undo_to_bottom b : forall n s,
  wf s ->
  nth_error (map buffer (history s)) 0 = Some b ->
  (history_index s <= 0 -> current_buffer s = Some b) ->
  history_index s <= Z.of_nat n ->
  current_buffer (Nat.iter n (command undo) s) = Some b.
Proof.
  induction n as [|n IH]; intros s Hwf Hhd Hcur Hidx.
  - simpl. apply Hcur. lia.
  - rewrite Nat.iter_succ_r.
    destruct (Z.le_gt_cases (history_index s) 0) as [Hle|Hgt].
    + rewrite command_undo_bottom by exact Hle.
      apply IH; try assumption. lia.
    + pose proof (wf_index s Hwf) as Hi.
      destruct (command_undo s) as (entry & Hentry & ->); [lia|].
      apply IH.
      * apply wf_moved_to; [exact Hwf|lia].
      * exact Hhd.
      * change (history_index s - 1 <= 0 -> Some (buffer entry) = Some b).
        intros Hz. replace (history_index s - 1) with 0 in Hentry by lia.
        destruct (history s) as [|e0 rest]; [discriminate|].
        simpl in Hentry, Hhd. congruence.
      * change (history_index s - 1 <= Z.of_nat n). lia.
Qed.

(** C1.  Load an image with content [b] (in any session, whatever happened
    before), then request at most 20 effect operations, possibly moving
    sliders or editing entries in between; the operations may succeed, fail
    or be turned down.  Calling undo as many times as operations were
    requested leaves a current image whose content is exactly [b]. *)
Theorem undo_all_restores_load :
  forall (before acts : list Action) (file_path : string) (b : Buffer)
         (size : Z),
    file_path <> "" ->
    forallb (fun a => is_request a || is_edit a) acts = true ->
    (requests acts <= 20)%nat ->
    let loaded :=
      open_image file_path (Returned b) (Returned size) (run before init) in
    current_buffer (Nat.iter (requests acts) (command undo) (run acts loaded))
    = Some b.
Proof.
  intros before acts file_path b size Hpath Hall Hn loaded.
  pose proof (wf_run before init wf_init) as Hwf0.
  assert (Hload : since_load b 0 loaded).
  { destruct (open_image_loaded file_path b size (run before init) Hpath)
      as (_ & Hcur & Hh & Hi & _).
    fold loaded in Hcur, Hh, Hi.
    split; [apply wf_open_image; exact Hwf0|].
    split; [rewrite Hi, Hh; reflexivity|].
    split; [rewrite Hh; reflexivity|].
    unfold current_buffer. rewrite Hcur. reflexivity. }
  destruct (since_load_run b acts 0 loaded Hload Hall) as (k & Hk & Hs);
    [simpl; exact Hn|].
  simpl in Hk. destruct Hs as (Hwf & Hidx & Hshape).
  apply undo_to_bottom; [exact Hwf| | |].
  - destruct k; [destruct Hshape as [-> _]; reflexivity|].
    destruct Hshape as (_ & _ & H0 & _). exact H0.
  - intros Hz. destruct k; [destruct Hshape as [_ Hb]; exact Hb|].
    destruct Hshape as (_ & Hlen & _). lia.
  - pose proof (wf_capacity _ Hwf). destruct k.
    + destruct Hshape as [Hb _].
      assert (length (history (run acts loaded)) = 1%nat).
      { rewrite <- (length_map buffer), Hb. reflexivity. }
      lia.
    + destruct Hshape as (_ & Hlen & _). lia.
Qed.

(** ** Snapshots after an undo *)

Lemma NoDup_app_disjoint (l1 l2 : list Image) e :
  NoDup (map ident (l1 ++ l2)) -> In e l1 -> In e l2 -> False.
Proof.
  induction l1 as [|a l1 IH]; intros Hd H1 H2; [destruct H1|].
  simpl in Hd. inversion Hd as [|x l Hnot Hd']; subst.
  destruct H1 as [->|H1].
  - apply Hnot. apply in_map. apply in_or_app. right. exact H2.
  - apply IH; assumption.
Qed.

(** C4.  In a session whose cursor is before the last history entry, the
    next snapshot keeps the entries up to the cursor, appends a copy of the
    current image and puts the cursor on it.  None of the entries that were
    after the cursor is in the history any more, and redo, however often it
    is called, changes nothing: neither right after the snapshot nor after
    the operation the snapshot was taken for. *)
Theorem snapshot_discards_redo_branch :
  forall acts : list Action,
    history_index (run acts init)
    < Z.of_nat (length (history (run acts init))) - 1 ->
    exists cur s1,
      current_image (run acts init) = Some cur /\
      add_to_history (run acts init) = (s1, None) /\
      history s1 =
        firstn (Z.to_nat (history_index (run acts init) + 1))
          (history (run acts init))
        ++ [mkImage (next_ident (run acts init)) (buffer cur)] /\
      history_index s1 = Z.of_nat (length (history s1)) - 1 /\
      (forall e,
         In e (skipn (Z.to_nat (history_index (run acts init) + 1))
                 (history (run acts init))) ->
         ~ In e (history s1)) /\
      (forall n, Nat.iter n (command redo) s1 = s1) /\
      forall message process_func n,
        let s2 := step (run acts init) (Dispatch message process_func) in
        history s2 = history s1 /\
        history_index s2 = history_index s1 /\
        Nat.iter n (command redo) s2 = s2.
Proof.
  intros acts Hidx. pose proof (wf_run acts init wf_init) as Hwf.
  set (s := run acts init) in *.
  pose proof (wf_index s Hwf) as Hi. pose proof (wf_capacity s Hwf) as Hcap.
  destruct (current_image s) as [cur|] eqn:Hcur.
  2:{ destruct (wf_loaded s Hwf Hcur) as [_ Hnil]. rewrite Hnil in Hi, Hidx.
      simpl in Hi, Hidx. lia. }
  set (kept := firstn (Z.to_nat (history_index s + 1)) (history s)).
  set (x := mkImage (next_ident s) (buffer cur)).
  assert (Hkept : length kept = Z.to_nat (history_index s + 1)).
  { unfold kept. rewrite length_firstn. lia. }
  assert (Happ : deque_append kept x = kept ++ [x]).
  { unfold deque_append.
    destruct (Nat.leb_spec maxlen (length kept)); [|reflexivity].
    unfold maxlen in *. lia. }
  assert (Hh1 : history (snapshot_of cur s) = kept ++ [x]).
  { unfold snapshot_of. fields. exact Happ. }
  assert (Hi1 : history_index (snapshot_of cur s)
                = Z.of_nat (length (history (snapshot_of cur s))) - 1).
  { unfold snapshot_of. fields. reflexivity. }
  exists cur, (snapshot_of cur s).
  split; [reflexivity|].
  split; [apply add_to_history_snapshot; assumption|].
  split; [exact Hh1|]. split; [exact Hi1|]. split.
  { intros e He Hin. rewrite Hh1 in Hin.
    apply in_app_or in Hin as [Hin|[<-|[]]].
    - apply (NoDup_app_disjoint kept
               (skipn (Z.to_nat (history_index s + 1)) (history s)) e);
        [|exact Hin|exact He].
      unfold kept. rewrite firstn_skipn. exact (wf_distinct s Hwf).
    - pose proof (wf_fresh s Hwf) as Hf. rewrite Forall_forall in Hf.
      apply In_skipn in He. specialize (Hf _ He). simpl in Hf. lia. }
  split.
  { intros n. apply iter_fixed. apply command_redo_top. lia. }
  intros message process_func n s2. subst s2. simpl step.
  rewrite (command_process_with_progress _ _ _ cur Hwf Hcur).
  set (s1 := update_status message (snapshot_of cur s)).
  assert (Hkeep :
    history (worker_state process_func s1) = history (snapshot_of cur s) /\
    history_index (worker_state process_func s1)
    = history_index (snapshot_of cur s)).
  { unfold worker_state.
    destruct (process_func s1) as [[result|]|exc]; split; reflexivity. }
  destruct Hkeep as [Hh2 Hi2].
  split; [exact Hh2|]. split; [exact Hi2|].
  apply iter_fixed. apply command_redo_top.
  change (history (set_ui_log ?l ?t)) with (history t).
  change (history_index (set_ui_log ?l ?t)) with (history_index t).
  rewrite Hh2, Hi2. lia.
Qed.

(** ** Adjustments *)

Lemma adjust_stages s orig :
  original_image s = Some orig ->
  adjust s =
  (a <- tone_stage Brightness_enhance (brightness_var (widgets s)) (buffer orig) ;;
   c <- tone_stage Contrast_enhance (contrast_var (widgets s)) a ;;
   r <- tone_stage Color_enhance (saturation_var (widgets s)) c ;;
   Returned (Some r)).
Proof. intros H. unfold adjust. rewrite H. reflexivity. Qed.

Lemma adjust_frame s t :
  original_image t = original_image s -> widgets t = widgets s ->
  adjust t = adjust s.
Proof. intros Ho Hw. unfold adjust. rewrite Ho, Hw. reflexivity. Qed.

Lemma command_apply_adjustments s :
  original_image s <> None ->
  command apply_adjustments s
  = command (process_with_progress "Applying adjustments..." adjust) s.
Proof.
  intros H. unfold command, apply_adjustments.
  destruct (original_image s); [reflexivity|congruence].
Qed.

Lemma apply_adjustments_frame s cur :
  wf s -> current_image s = Some cur ->
  let s2 := command apply_adjustments s in
  wf s2 /\ original_image s2 = original_image s /\ widgets s2 = widgets s /\
  current_image s2 <> None /\
  current_buffer s2 =
    match adjust s with
    | Returned (Some result) => Some result
    | _ => Some (buffer cur)
    end.
Proof.
  intros Hwf Hcur s2. subst s2.
  assert (Horig : original_image s <> None).
  { intros H. apply (wf_original s Hwf) in H. congruence. }
  rewrite command_apply_adjustments by exact Horig.
  destruct (dispatch_frame "Applying adjustments..." adjust s cur Hwf Hcur)
    as (_ & (Ho & Hw & _ & Hne) & Hb & _).
  split; [apply wf_process_with_progress; exact Hwf|].
  split; [exact Ho|]. split; [exact Hw|]. split; [exact Hne|].
  rewrite Hb. rewrite (adjust_frame s _); reflexivity.
Qed.

(** C5.  In a session with an image loaded, [adjust] starts from the
    original image and applies the brightness, contrast and saturation
    stages in that order; what the current image holds plays no part in it.
    After the request the current image holds the result of exactly these
    three stages on the original image (and is left as it was if a stage
    raises), and requesting the adjustment again and again with the sliders
    untouched leaves that same content: nothing compounds. *)
Theorem adjustments_start_from_original :
  forall (acts : list Action) (orig : Image),
    original_image (run acts init) = Some orig ->
    adjust (run acts init) =
      (a <- tone_stage Brightness_enhance
              (brightness_var (widgets (run acts init))) (buffer orig) ;;
       c <- tone_stage Contrast_enhance
              (contrast_var (widgets (run acts init))) a ;;
       r <- tone_stage Color_enhance
              (saturation_var (widgets (run acts init))) c ;;
       Returned (Some r)) /\
    (forall other,
       adjust (set_current_image other (run acts init))
       = adjust (run acts init)) /\
    (forall n,
       current_buffer
         (Nat.iter (S n) (command apply_adjustments) (run acts init))
       = match
           (a <- tone_stage Brightness_enhance
                   (brightness_var (widgets (run acts init))) (buffer orig) ;;
            c <- tone_stage Contrast_enhance
                   (contrast_var (widgets (run acts init))) a ;;
            tone_stage Color_enhance
              (saturation_var (widgets (run acts init))) c)
         with
         | Returned r => Some r
         | Raised _ => current_buffer (run acts init)
         end) /\
    forall n,
      current_buffer (Nat.iter (S n) (command apply_adjustments) (run acts init))
      = current_buffer (command apply_adjustments (run acts init)).
Proof.
  intros acts orig Horig. pose proof (wf_run acts init wf_init) as Hwf.
  set (s := run acts init) in *.
  split; [apply adjust_stages; exact Horig|].
  split; [intros other; apply adjust_frame; reflexivity|].
  destruct (current_image s) as [cur|] eqn:Hcur.
  2:{ destruct (wf_loaded s Hwf Hcur) as [Hnone _]. congruence. }
  set (apply_n := fun n => Nat.iter n (command apply_adjustments) s).
  assert (Hiter : forall n,
    wf (apply_n n) /\ original_image (apply_n n) = original_image s /\
    widgets (apply_n n) = widgets s /\
    exists c, current_image (apply_n n) = Some c /\
      (n <> O ->
       Some (buffer c) =
         match adjust s with
         | Returned (Some result) => Some result
         | _ => Some (buffer cur)
         end)).
  { induction n as [|n IH].
    - split; [exact Hwf|]. split; [reflexivity|]. split; [reflexivity|].
      exists cur. split; [exact Hcur|]. congruence.
    - destruct IH as (Hwt & Hot & Hwd & c & Hc & Hbuf).
      change (apply_n (S n)) with (command apply_adjustments (apply_n n)).
      destruct (apply_adjustments_frame (apply_n n) c Hwt Hc)
        as (Hw2 & Ho2 & Hwd2 & Hne & Hb2).
      split; [exact Hw2|]. split; [congruence|]. split; [congruence|].
      destruct (current_image (command apply_adjustments (apply_n n)))
        as [c2|] eqn:Hc2; [|congruence].
      exists c2. split; [reflexivity|]. intros _.
      unfold current_buffer in Hb2. rewrite Hc2 in Hb2. simpl in Hb2.
      rewrite Hb2. rewrite (adjust_frame s (apply_n n) Hot Hwd).
      destruct (adjust s) as [[result|]|exc]; try reflexivity;
        (destruct n;
         [change (apply_n O) with s in Hc; congruence
         |apply Hbuf; discriminate]). }
  split.
  - intros n. destruct (Hiter (S n)) as (_ & _ & _ & c & Hc & Hb).
    change (current_buffer (apply_n (S n)) = 
      match
        (a <- tone_stage Brightness_enhance
                (brightness_var (widgets s)) (buffer orig) ;;
         c <- tone_stage Contrast_enhance (contrast_var (widgets s)) a ;;
         tone_stage Color_enhance (saturation_var (widgets s)) c)
      with
      | Returned r => Some r
      | Raised _ => current_buffer s
      end).
    unfold current_buffer at 1. rewrite Hc. simpl option_map.
    rewrite Hb by discriminate. rewrite (adjust_stages s orig Horig).
    unfold current_buffer. rewrite Hcur. simpl option_map.
    destruct (tone_stage Brightness_enhance (brightness_var (widgets s))
                (buffer orig)) as [a|exc]; [|reflexivity].
    simpl.
    destruct (tone_stage Contrast_enhance (contrast_var (widgets s)) a)
      as [c'|exc]; [|reflexivity].
    simpl.
    destruct (tone_stage Color_enhance (saturation_var (widgets s)) c')
      as [r|exc]; reflexivity.
  - intros n.
    destruct (Hiter (S n)) as (_ & _ & _ & c & Hc & Hb).
    destruct (Hiter 1%nat) as (_ & _ & _ & c1 & Hc1 & Hb1).
    change (current_buffer (apply_n (S n)) = current_buffer (apply_n 1%nat)).
    unfold current_buffer. rewrite Hc, Hc1. simpl.
    rewrite Hb, Hb1 by discriminate. reflexivity.
Qed.

(** C6.  A stage of the adjustment group whose multiplier is 1.0 hands its
    input on unchanged.  With brightness, contrast and saturation all at 1.0,
    [adjust] returns the content of the original image, and after the
    request the current image holds exactly that content. *)
Theorem unit_multiplier_is_identity :
  forall (acts : list Action) (orig : Image),
    original_image (run acts init) = Some orig ->
    (forall enhancer b, tone_stage enhancer 1%float b = Returned b) /\
    adjust (run acts init) =
      (a <- tone_stage Brightness_enhance
              (brightness_var (widgets (run acts init))) (buffer orig) ;;
       c <- tone_stage Contrast_enhance
              (contrast_var (widgets (run acts init))) a ;;
       r <- tone_stage Color_enhance
              (saturation_var (widgets (run acts init))) c ;;
       Returned (Some r)) /\
    (brightness_var (widgets (run acts init)) = 1%float ->
     contrast_var (widgets (run acts init)) = 1%float ->
     saturation_var (widgets (run acts init)) = 1%float ->
     adjust (run acts init) = Returned (Some (buffer orig)) /\
     current_buffer (command apply_adjustments (run acts init))
     = Some (buffer orig)).
Proof.
  intros acts orig Horig. pose proof (wf_run acts init wf_init) as Hwf.
  set (s := run acts init) in *.
  split; [intros enhancer b; reflexivity|].
  split; [apply adjust_stages; exact Horig|].
  intros Hb Hc Hs.
  assert (Hadj : adjust s = Returned (Some (buffer orig))).
  { rewrite (adjust_stages s orig Horig), Hb, Hc, Hs. reflexivity. }
  split; [exact Hadj|].
  destruct (current_image s) as [cur|] eqn:Hcur.
  2:{ destruct (wf_loaded s Hwf Hcur) as [Hnone _]. congruence. }
  destruct (apply_adjustments_frame s cur Hwf Hcur) as (_ & _ & _ & _ & Hbuf).
  rewrite Hbuf, Hadj. reflexivity.
Qed.

(** C7.  Auto-enhance runs contrast at 1.2, then colour at 1.1, then
    sharpness at 1.1, each on the result of the stage before and the first
    on the current image; the original image plays no part.  When all three
    stages return, the current image holds the result. *)
Theorem auto_enhance_composition :
  forall (acts : list Action) (cur : Image),
    current_image (run acts init) = Some cur ->
    enhance (run acts init) =
      (c <- Contrast_enhance (buffer cur) 1.2%float ;;
       k <- Color_enhance c 1.1%float ;;
       r <- Sharpness_enhance k 1.1%float ;;
       Returned (Some r)) /\
    (forall other,
       enhance (set_original_image other (run acts init))
       = enhance (run acts init)) /\
    current_buffer (command auto_enhance (run acts init)) =
      match (c <- Contrast_enhance (buffer cur) 1.2%float ;;
             k <- Color_enhance c 1.1%float ;;
             Sharpness_enhance k 1.1%float) with
      | Returned result => Some result
      | Raised _ => Some (buffer cur)
      end.
Proof.
  intros acts cur Hcur. pose proof (wf_run acts init wf_init) as Hwf.
  set (s := run acts init) in *.
  assert (Henh : forall t, current_image t = Some cur ->
    enhance t =
      (c <- Contrast_enhance (buffer cur) 1.2%float ;;
       k <- Color_enhance c 1.1%float ;;
       r <- Sharpness_enhance k 1.1%float ;;
       Returned (Some r))).
  { intros t Ht. unfold enhance, on_current. rewrite Ht.
    destruct (Contrast_enhance (buffer cur) 1.2%float) as [c|e]; simpl;
      [|reflexivity].
    destruct (Color_enhance c 1.1%float) as [k|e]; simpl; reflexivity. }
  split; [apply Henh; exact Hcur|].
  split; [intros other; rewrite !Henh by exact Hcur; reflexivity|].
  assert (Hcmd : command auto_enhance s
                 = command (process_with_progress "Auto enhancing..." enhance) s).
  { unfold command, auto_enhance, when_loaded. rewrite Hcur. reflexivity. }
  rewrite Hcmd.
  destruct (dispatch_frame "Auto enhancing..." enhance s cur Hwf Hcur)
    as (_ & (_ & _ & Hc1 & _) & Hb & _).
  rewrite Hb, (Henh _ Hc1).
  destruct (Contrast_enhance (buffer cur) 1.2%float) as [c|e]; simpl;
    [|reflexivity].
  destruct (Color_enhance c 1.1%float) as [k|e]; simpl; [|reflexivity].
  destruct (Sharpness_enhance k 1.1%float) as [r|e]; reflexivity.
Qed.

(** ** Failing and rejected operations *)

(** When the transform raises, the session keeps its current image and its
    statistics, the history is the one the snapshot left, and the only
    traffic towards the user is the status text of the request and the
    traceback of the callback that found [e] unbound. *)
Lemma raising_transform_frame message process_func s cur exc :
  wf s -> current_image s = Some cur ->
  process_func (update_status message (snapshot_of cur s)) = Raised exc ->
  let s2 := command (process_with_progress message process_func) s in
  current_buffer s2 = Some (buffer cur) /\
  session_stats s2 = session_stats s /\
  history s2 =
    deque_append (firstn (Z.to_nat (history_index s + 1)) (history s))
      (mkImage (next_ident s) (buffer cur)) /\
  ui_log s2 =
    ui_log s ++ [status_text message; callback_exception unbound_e].
Proof.
  intros Hwf Hcur Hraise s2.
  destruct (dispatch_frame message process_func s cur Hwf Hcur)
    as ((Hh & _) & _ & Hb & Hst & Hlog).
  unfold worker_events in Hlog. rewrite Hraise in Hb, Hst, Hlog.
  repeat split; assumption.
Qed.

(** C9.  A resize request whose width or height entry does not read as a
    positive integer is answered on the spot, in any session: the method
    returns the session it was given with one more dialog in the log, so
    nothing is stored in the history, nothing is dispatched and the current
    image stays; with an image loaded the dialog is the error
    "Invalid dimensions!". *)
Theorem invalid_resize_is_rejected :
  forall s : Session,
    (forall w h,
       int (width_var (widgets s)) = Some w ->
       int (height_var (widgets s)) = Some h ->
       w <= 0 \/ h <= 0) ->
    exists dialog,
      resize_image s = (notify dialog s, None) /\
      (current_image s <> None ->
       dialog = showerror "Error" "Invalid dimensions!") /\
      history (fst (resize_image s)) = history s /\
      history_index (fst (resize_image s)) = history_index s /\
      current_image (fst (resize_image s)) = current_image s /\
      next_ident (fst (resize_image s)) = next_ident s /\
      after_queue (fst (resize_image s)) = after_queue s.
Proof.
  intros s Hbad.
  assert (Hcase : exists dialog,
    resize_image s = (notify dialog s, None) /\
    (current_image s <> None ->
     dialog = showerror "Error" "Invalid dimensions!")).
  { unfold resize_image. destruct (current_image s) as [cur|].
    - exists (showerror "Error" "Invalid dimensions!").
      split; [|reflexivity].
      destruct (int (width_var (widgets s))) as [w|]; [|reflexivity].
      destruct (int (height_var (widgets s))) as [h|]; [|reflexivity].
      destruct (Hbad w h eq_refl eq_refl) as [Hw|Hh].
      + destruct (Z.leb_spec w 0); [reflexivity|lia].
      + destruct (Z.leb_spec h 0); [|lia]. rewrite orb_true_r. reflexivity.
    - exists (showwarning "Warning" "No image loaded!").
      split; [reflexivity|]. intros H. congruence. }
  destruct Hcase as (dialog & Heq & Hdialog). exists dialog.
  rewrite Heq. repeat split; try assumption.
Qed.

(** C10, as amended.  In a session without a current image every effect
    entry point returns at once: no snapshot, no worker, and every field of
    the session as it was.  Resize and add-watermark are the two that are
    not silent: they add the warning "No image loaded!" to what the user
    sees.  [process_with_progress] itself returns the session untouched. *)
Theorem empty_session_requests_change_nothing :
  forall (r : Request) (s : Session),
    current_image s = None ->
    effect r s =
      (if warns_when_empty r
       then notify (showwarning "Warning" "No image loaded!") s
       else s, None) /\
    forall message process_func,
      process_with_progress message process_func s = (s, None).
Proof.
  intros r s Hcur. split.
  - destruct r; simpl;
      unfold apply_adjustments, apply_blur, apply_sharpen, apply_edge_enhance,
        apply_emboss, apply_grayscale, apply_sepia, apply_oil_painting,
        apply_posterize, apply_psychedelic, apply_vintage, apply_temperature,
        apply_denoise, histogram_equalization, auto_enhance,
        apply_unsharp_mask, resize_image, rotate_image, flip_horizontal,
        add_watermark, when_loaded, process_with_progress;
      rewrite ?Hcur; try reflexivity.
    destruct (original_image s); reflexivity.
  - intros message process_func. unfold process_with_progress.
    rewrite Hcur. reflexivity.
Qed.

(** ** Export *)

(** C2, as amended.  With an image loaded and a folder chosen, the export
    writes PNG, then JPEG, then WebP inside one try block.  The first encode
    that fails ends the export with the single dialog "Export failed: ...":
    the formats before it stay written, the formats after it are not
    attempted.  Only when all three are written does the success message
    appear.  The session itself is unchanged apart from this traffic. *)
Theorem export_stops_at_first_failure :
  forall (s : Session) (cur : Image) (folder : string) (save : Saver),
    current_image s = Some cur ->
    folder <> "" ->
    let path ext := path_join folder (export_base_name s ++ ext) in
    let b := buffer cur in
    let failed e := showerror "Error" ("Export failed: " ++ exc_str e) in
    export_all_formats folder save s =
    set_ui_log
      (ui_log s ++
       match save (path ".png") PNG b with
       | Some e => [failed e]
       | None =>
           file_saved (path ".png") PNG b ::
           match (if is_RGBA (mode b) then paste_on_white b else Returned b) with
           | Raised e => [failed e]
           | Returned rgb =>
               match save (path ".jpg") JPEG rgb with
               | Some e => [failed e]
               | None =>
                   file_saved (path ".jpg") JPEG rgb ::
                   match save (path ".webp") WebP b with
                   | Some e => [failed e]
                   | None =>
                       [file_saved (path ".webp") WebP b;
                        status_text ("Exported " ++ str 3 ++ " formats");
                        showinfo "Success"
                          ("Exported to " ++ folder ++ "\n"
                           ++ "PNG, JPEG, WebP")]
                   end
               end
           end
       end) s.
Proof.
  intros s cur folder save Hcur Hfolder path b failed.
  unfold export_all_formats. rewrite Hcur, (eqb_empty_false _ Hfolder).
  unfold formats. cbn [export_each is_JPEG andb]. fold b.
  change (path_join folder (export_base_name s ++ ".png")) with (path ".png").
  change (path_join folder (export_base_name s ++ ".jpg")) with (path ".jpg").
  change (path_join folder (export_base_name s ++ ".webp")) with (path ".webp").
  destruct (save (path ".png") PNG b) as [e|].
  { reflexivity. }
  destruct (if is_RGBA (mode b) then paste_on_white b else Returned b)
    as [rgb|e].
  2:{ destruct s; evaluate. rewrite <- !app_assoc. reflexivity. }
  destruct (save (path ".jpg") JPEG rgb) as [e|].
  { destruct s; evaluate. rewrite <- !app_assoc. reflexivity. }
  destruct (save (path ".webp") WebP b) as [e|].
  { destruct s; evaluate. rewrite <- !app_assoc. reflexivity. }
  destruct s; evaluate. rewrite <- !app_assoc. reflexivity.
Qed.

End Properties.

(** * Concrete runs *)

Lemma undo_all_restores_load_witness :
  "photo.png" <> "" /\
  forallb (fun a => is_request a || is_edit a) three_effects = true /\
  (requests three_effects <= 20)%nat /\
  current_buffer
    (Nat.iter (requests three_effects) (command undo)
       (run (lib := sample_library) three_effects fresh_session))
  = Some two_pixels.
Proof.
  assert (H1 : "photo.png" <> "") by discriminate.
  assert (H2 : forallb (fun a => is_request a || is_edit a) three_effects
               = true) by (vm_compute; reflexivity).
  assert (H3 : (requests three_effects <= 20)%nat) by (vm_compute; lia).
  split; [exact H1|]. split; [exact H2|]. split; [exact H3|].
  exact (undo_all_restores_load (lib := sample_library) [] three_effects
           "photo.png" two_pixels 70 H1 H2 H3).
Defined.

Lemma history_capacity_witness :
  hd_error (history (run (lib := sample_library) full_history init))
  = Some (mkImage 2 two_pixels) /\
  length (history (run (lib := sample_library) full_history init)) = 20%nat /\
  history_index (run (lib := sample_library) full_history init) = 19 /\
  forall (later : list Action) (n : nat) (i : Z),
    getitem
      (history
         (Nat.iter n (command undo)
            (run (lib := sample_library) later
               (step (lib := sample_library)
                  (run (lib := sample_library) full_history init)
                  (Dispatch "Auto enhancing..." (enhance (lib := sample_library)))))))
      i
    <> Some (mkImage 2 two_pixels).
Proof.
  assert (H1 : hd_error (history (run (lib := sample_library) full_history init))
               = Some (mkImage 2 two_pixels)) by (vm_compute; reflexivity).
  assert (H2 : length (history (run (lib := sample_library) full_history init))
               = 20%nat) by (vm_compute; reflexivity).
  assert (H3 : history_index (run (lib := sample_library) full_history init)
               = 19) by (vm_compute; reflexivity).
  split; [exact H1|]. split; [exact H2|]. split; [exact H3|].
  intros later n i.
  destruct (proj2 (history_capacity (lib := sample_library) full_history)
              (mkImage 2 two_pixels) "Auto enhancing..."
              (enhance (lib := sample_library)) H1 H2 H3)
    as (_ & _ & Hlater).
  exact (proj2 (proj2 (Hlater later n)) i).
Defined.

Lemma snapshot_discards_redo_branch_witness :
  history_index (run (lib := sample_library) after_one_undo init)
  < Z.of_nat (length (history (run (lib := sample_library) after_one_undo init)))
    - 1 /\
  exists s1,
    add_to_history (run (lib := sample_library) after_one_undo init)
    = (s1, None) /\
    forall n, Nat.iter n (command redo) s1 = s1.
Proof.
  assert (H : history_index (run (lib := sample_library) after_one_undo init)
              < Z.of_nat
                  (length (history (run (lib := sample_library) after_one_undo init)))
                - 1) by (vm_compute; reflexivity).
  split; [exact H|].
  destruct (snapshot_discards_redo_branch (lib := sample_library)
              after_one_undo H)
    as (cur & s1 & _ & Hadd & _ & _ & _ & Hredo & _).
  exists s1. split; [exact Hadd|exact Hredo].
Defined.

Lemma adjustments_start_from_original_witness :
  original_image (run (lib := sample_library) blur_then_sliders init)
  = Some (mkImage 0 two_pixels) /\
  current_buffer (run (lib := sample_library) blur_then_sliders init)
  = Some (mkBuffer RGB 2 1 [26; 36; 46; 56; 66; 76]) /\
  forall n,
    current_buffer
      (Nat.iter (S n) (command (apply_adjustments (lib := sample_library)))
         (run (lib := sample_library) blur_then_sliders init))
    = Some (mkBuffer RGB 2 1 [13; 23; 33; 43; 53; 63]).
Proof.
  assert (H : original_image
                (run (lib := sample_library) blur_then_sliders init)
              = Some (mkImage 0 two_pixels)) by (vm_compute; reflexivity).
  split; [exact H|]. split; [vm_compute; reflexivity|]. intros n.
  rewrite (proj1 (proj2 (proj2 (adjustments_start_from_original
                                  (lib := sample_library) blur_then_sliders
                                  (mkImage 0 two_pixels) H))) n).
  vm_compute. reflexivity.
Defined.

Lemma unit_multiplier_is_identity_witness :
  original_image (run (lib := sample_library) [load_photo] init)
  = Some (mkImage 0 two_pixels) /\
  brightness_var (widgets (run (lib := sample_library) [load_photo] init))
  = 1%float /\
  contrast_var (widgets (run (lib := sample_library) [load_photo] init))
  = 1%float /\
  saturation_var (widgets (run (lib := sample_library) [load_photo] init))
  = 1%float /\
  current_buffer
    (command (apply_adjustments (lib := sample_library))
       (run (lib := sample_library) [load_photo] init))
  = Some two_pixels.
Proof.
  assert (H : original_image (run (lib := sample_library) [load_photo] init)
              = Some (mkImage 0 two_pixels)) by (vm_compute; reflexivity).
  split; [exact H|]. repeat (split; [vm_compute; reflexivity|]).
  exact (proj2 (proj2 (proj2 (unit_multiplier_is_identity
                                (lib := sample_library) [load_photo]
                                (mkImage 0 two_pixels) H))
                 eq_refl eq_refl eq_refl)).
Defined.

Lemma auto_enhance_composition_witness :
  current_image (run (lib := sample_library) [load_photo] init)
  = Some (mkImage 1 two_pixels) /\
  current_buffer
    (command (auto_enhance (lib := sample_library))
       (run (lib := sample_library) [load_photo] init))
  = Some (mkBuffer RGB 2 1 [24; 34; 44; 54; 64; 74]).
Proof.
  assert (H : current_image (run (lib := sample_library) [load_photo] init)
              = Some (mkImage 1 two_pixels)) by (vm_compute; reflexivity).
  split; [exact H|].
  exact (proj2 (proj2 (auto_enhance_composition (lib := sample_library)
                         [load_photo] (mkImage 1 two_pixels) H))).
Defined.

Lemma invalid_resize_is_rejected_witness :
  (forall w h,
     int (Library := sample_library)
       (width_var (widgets (set_widgets zero_width fresh_session))) = Some w ->
     int (Library := sample_library)
       (height_var (widgets (set_widgets zero_width fresh_session))) = Some h ->
     w <= 0 \/ h <= 0) /\
  resize_image (lib := sample_library) (set_widgets zero_width fresh_session)
  = (notify (showerror "Error" "Invalid dimensions!")
       (set_widgets zero_width fresh_session), None).
Proof.
  assert (H : forall w h,
     int (Library := sample_library)
       (width_var (widgets (set_widgets zero_width fresh_session))) = Some w ->
     int (Library := sample_library)
       (height_var (widgets (set_widgets zero_width fresh_session))) = Some h ->
     w <= 0 \/ h <= 0).
  { assert (E : int (Library := sample_library)
                  (width_var (widgets (set_widgets zero_width fresh_session)))
                = Some 0) by (vm_compute; reflexivity).
    intros w h Hw Hh. rewrite E in Hw. injection Hw as <-. left. lia. }
  split; [exact H|].
  destruct (invalid_resize_is_rejected (lib := sample_library)
              (set_widgets zero_width fresh_session) H)
    as (dialog & Heq & Hdialog & _).
  rewrite Heq. rewrite Hdialog; [reflexivity|].
  assert (E : current_image (set_widgets zero_width fresh_session)
              = Some (mkImage 1 two_pixels)) by (vm_compute; reflexivity).
  rewrite E. discriminate.
Defined.

(** C10 does not hold of resize: in a session without an image it is not
    silent, it shows a warning. *)
Lemma empty_session_resize_warns :
  current_image init = None /\
  effect (lib := sample_library) ResizeImage init <> (init, None) /\
  ui_log (fst (effect (lib := sample_library) ResizeImage init))
  = [showwarning "Warning" "No image loaded!"].
Proof.
  assert (E : ui_log (fst (effect (lib := sample_library) ResizeImage init))
              = [showwarning "Warning" "No image loaded!"])
    by (vm_compute; reflexivity).
  split; [reflexivity|]. split; [|exact E].
  intros H. rewrite H in E. discriminate E.
Qed.

Lemma empty_session_requests_change_nothing_witness :
  current_image init = None /\
  effect (lib := sample_library) ApplyBlur init = (init, None) /\
  effect (lib := sample_library) AddWatermark init
  = (notify (showwarning "Warning" "No image loaded!") init, None).
Proof.
  assert (H : current_image init = None) by (vm_compute; reflexivity).
  split; [exact H|]. split.
  - exact (proj1 (empty_session_requests_change_nothing
                    (lib := sample_library) ApplyBlur init H)).
  - exact (proj1 (empty_session_requests_change_nothing
                    (lib := sample_library) AddWatermark init H)).
Defined.

(** C2 does not hold when the PNG cannot be written: JPEG and WebP, which
    this file system would accept, are not attempted. *)
Lemma png_failure_blocks_the_other_formats :
  (forall path content, png_refused path JPEG content = None) /\
  (forall path content, png_refused path WebP content = None) /\
  ui_log (export_all_formats (lib := sample_library) "out" png_refused
            fresh_session)
  = ui_log fresh_session
    ++ [showerror "Error" "Export failed: cannot write PNG"] /\
  forall path fmt content,
    ~ In (file_saved path fmt content)
        (ui_log (export_all_formats (lib := sample_library) "out" png_refused
                   fresh_session)).
Proof.
  assert (E : ui_log (export_all_formats (lib := sample_library) "out"
                        png_refused fresh_session)
              = [info_text "photo.png" 2 1 70; redraw two_pixels 1%float;
                 status_text "Loaded: photo.png";
                 showerror "Error" "Export failed: cannot write PNG"])
    by (vm_compute; reflexivity).
  split; [reflexivity|]. split; [reflexivity|].
  split; [vm_compute; reflexivity|].
  intros path fmt content H. rewrite E in H.
  repeat (destruct H as [H|H]; [discriminate H|]). exact H.
Qed.

Lemma export_stops_at_first_failure_witness :
  current_image fresh_session = Some (mkImage 1 two_pixels) /\
  "out" <> "" /\
  ui_log (export_all_formats (lib := sample_library) "out" every_save_works
            fresh_session)
  = ui_log fresh_session
    ++ [file_saved "out/photo.png.png" PNG two_pixels;
        file_saved "out/photo.png.jpg" JPEG two_pixels;
        file_saved "out/photo.png.webp" WebP two_pixels;
        status_text "Exported 3 formats";
        showinfo "Success" "Exported to out\nPNG, JPEG, WebP"].
Proof.
  assert (H1 : current_image fresh_session = Some (mkImage 1 two_pixels))
    by (vm_compute; reflexivity).
  assert (H2 : "out" <> "") by discriminate.
  split; [exact H1|]. split; [exact H2|].
  rewrite (export_stops_at_first_failure (lib := sample_library)
             fresh_session (mkImage 1 two_pixels) "out" every_save_works H1 H2).
  vm_compute. reflexivity.
Defined.

(** C8 on a concrete failure.  The image is loaded, the size entries ask for
    100000 x 100000 pixels and resize is requested: the transform raises on
    the worker.  The current image and the statistics are untouched and the
    snapshot taken before the dispatch is in the history, but no error
    dialog reaches the user: the callback finds [e] unbound and Tk prints
    the traceback of a NameError. *)
Theorem failed_transform_shows_no_dialog :
  resize (lib := sample_library) 100000 100000 before_failure
  = Raised out_of_memory /\
  current_image (step (lib := sample_library) before_failure (Effect ResizeImage))
  = current_image before_failure /\
  history (step (lib := sample_library) before_failure (Effect ResizeImage))
  = history before_failure ++ [mkImage 3 two_pixels] /\
  session_stats (step (lib := sample_library) before_failure (Effect ResizeImage))
  = session_stats before_failure /\
  ui_log (step (lib := sample_library) before_failure (Effect ResizeImage))
  = ui_log before_failure
    ++ [status_text "Resizing..."; callback_exception unbound_e] /\
  forall title message,
    ~ In (showerror title message)
        (ui_log (step (lib := sample_library) before_failure
                   (Effect ResizeImage))).
Proof.
  assert (E : ui_log (step (lib := sample_library) before_failure
                        (Effect ResizeImage))
              = [info_text "photo.png" 2 1 70; redraw two_pixels 1%float;
                 status_text "Loaded: photo.png"; status_text "Resizing...";
                 callback_exception unbound_e])
    by (vm_compute; reflexivity).
  repeat (split; [vm_compute; reflexivity|]).
  intros title message H. rewrite E in H.
  repeat (destruct H as [H|H]; [discriminate H|]). exact H.
Qed.

(** The bound of 20 operations in C1 is sharp: after 20 blurs the load is
    still reached, after 21 the oldest content left is the first blur. *)
Example twenty_operations_still_reach_the_load :
  current_buffer
    (Nat.iter 20 (command undo)
       (run (lib := sample_library) (repeat (Effect ApplyBlur) 20)
          fresh_session))
  = Some two_pixels.
Proof. vm_compute. reflexivity. Qed.

Example twenty_one_operations_lose_the_load :
  current_buffer
    (Nat.iter 21 (command undo)
       (run (lib := sample_library) (repeat (Effect ApplyBlur) 21)
          fresh_session))
  = Some (mkBuffer RGB 2 1 [26; 36; 46; 56; 66; 76]).
Proof. vm_compute. reflexivity. Qed.

(** * Further properties of the class *)

Section Further.
Context {lib : Library}.

Ltac evaluate :=
  cbv [update_status update_image_display notify after new_image
       set_current_image set_original_image set_image_path set_history
       set_history_index set_zoom_factor set_widgets set_session_stats
       set_next_ident set_exc_cell set_after_queue set_ui_log
       current_image original_image image_path history history_index
       zoom_factor widgets session_stats next_ident exc_cell after_queue
       ui_log moved_to] in *.

Lemma reachable_wf acts : wf (run acts init).
Proof. apply wf_run, wf_init. Qed.

(** ** The deque after a snapshot *)

Lemma deque_append_last (kept : list Image) x :
  nth_error (deque_append kept x) (length (deque_append kept x) - 1) = Some x.
Proof.
  rewrite deque_append_skipn.
  set (front := skipn (if (maxlen <=? length kept)%nat then 1 else 0) kept).
  rewrite length_app, nth_error_app2 by (simpl; lia).
  replace (length front + length [x] - 1 - length front)%nat with O
    by (simpl; lia).
  reflexivity.
Qed.

Lemma deque_append_before_last (kept : list Image) x :
  (1 <= length kept <= maxlen)%nat ->
  (2 <= length (deque_append kept x))%nat /\
  nth_error (deque_append kept x) (length (deque_append kept x) - 2)
  = nth_error kept (length kept - 1).
Proof.
  intros Hk. rewrite deque_append_skipn.
  destruct (Nat.leb_spec maxlen (length kept)) as [Hfull|Hroom];
    unfold maxlen in *; rewrite length_app, length_skipn; simpl length.
  - split; [lia|]. rewrite nth_error_app1 by (rewrite length_skipn; lia).
    rewrite nth_error_skipn. f_equal. lia.
  - split; [lia|]. simpl skipn.
    rewrite nth_error_app1 by lia. f_equal. lia.
Qed.

(** After a dispatched operation the history ends with the snapshot of the
    image the operation started from, the cursor is on it, and the entry
    before it is the one the cursor was on. *)
Lemma dispatch_cursor message process_func s cur :
  wf s -> current_image s = Some cur ->
  let s2 := command (process_with_progress message process_func) s in
  0 <= history_index s2 < Z.of_nat (length (history s2)) /\
  history_index s2 = Z.of_nat (length (history s2)) - 1 /\
  nth_error (history s2) (Z.to_nat (history_index s2))
  = Some (mkImage (next_ident s) (buffer cur)) /\
  (0 <= history_index s ->
   1 <= history_index s2 /\
   nth_error (history s2) (Z.to_nat (history_index s2 - 1))
   = nth_error (history s) (Z.to_nat (history_index s))).
Proof.
  intros Hwf Hcur s2.
  destruct (dispatch_frame message process_func s cur Hwf Hcur)
    as ((Hh & Hi & _) & _).
  fold s2 in Hh, Hi.
  pose proof (wf_index s Hwf) as Hrange.
  pose proof (wf_capacity s Hwf) as Hcap.
  set (kept := firstn (Z.to_nat (history_index s + 1)) (history s)) in *.
  set (x := mkImage (next_ident s) (buffer cur)) in *.
  assert (Hkept : length kept = Z.to_nat (history_index s + 1)).
  { unfold kept. rewrite length_firstn. lia. }
  assert (Hkcap : (length kept <= maxlen)%nat) by lia.
  pose proof (deque_append_length kept x Hkcap) as Hlen.
  rewrite <- Hh in Hlen.
  split; [lia|]. split; [exact Hi|]. split.
  { rewrite Hi, Hh.
    replace (Z.to_nat (Z.of_nat (length (deque_append kept x)) - 1))
      with (length (deque_append kept x) - 1)%nat by lia.
    apply deque_append_last. }
  intros Hpos.
  destruct (deque_append_before_last kept x) as [H2 Hprev]; [lia|].
  rewrite <- Hh in H2. split; [lia|].
  rewrite Hi, Hh.
  replace (Z.to_nat (Z.of_nat (length (deque_append kept x)) - 1 - 1))
    with (length (deque_append kept x) - 2)%nat by lia.
  rewrite Hprev, Hkept. unfold kept. rewrite nth_error_firstn.
  replace (Z.to_nat (history_index s + 1) - 1)%nat
    with (Z.to_nat (history_index s)) by lia.
  destruct (Nat.ltb_spec (Z.to_nat (history_index s))
              (Z.to_nat (history_index s + 1))); [reflexivity|lia].
Qed.

(** ** The cursor stays on the history *)

Lemma anchored_step s a : wf s -> anchored s -> anchored (step s a).
Proof.
  intros Hwf Ha. pose proof (wf_index s Hwf) as Hrange. destruct a; simpl.
  - unfold open_image. destruct (String.eqb file_path ""); [exact Ha|].
    unfold anchored in *.
    destruct opened as [b|exc]; [destruct file_size as [size|exc]|];
      destruct s; evaluate; first [exact Ha|intros H; discriminate H].
  - destruct (effect_cases r s Hwf) as [[log ->]|(m & f & Hne & ->)].
    + exact Ha.
    + destruct (current_image s) as [cur|] eqn:Hcur; [|congruence].
      destruct (dispatch_cursor m f s cur Hwf Hcur) as (Hr & _).
      intros H. lia.
  - destruct (current_image s) as [cur|] eqn:Hcur.
    + destruct (dispatch_cursor message process_func s cur Hwf Hcur)
        as (Hr & _).
      intros H. lia.
    + rewrite command_process_with_progress_empty by exact Hcur. exact Ha.
  - destruct (Z.le_gt_cases (history_index s) 0) as [Hle|Hgt].
    + rewrite command_undo_bottom by assumption. exact Ha.
    + destruct (command_undo s) as (entry & _ & ->); [lia|].
      intros Hm. change (history_index s - 1 = -1) in Hm. lia.
  - destruct (Z.le_gt_cases (Z.of_nat (length (history s)) - 1)
                (history_index s)) as [Hle|Hgt].
    + rewrite command_redo_top by assumption. exact Ha.
    + destruct (command_redo s) as (entry & _ & ->); [lia|].
      intros Hm. change (history_index s + 1 = -1) in Hm. lia.
  - unfold reset_image. destruct (original_image s) as [orig|]; [|exact Ha].
    destruct answer; [|exact Ha].
    unfold anchored. destruct s; evaluate. intros H; discriminate H.
  - exact Ha.
  - destruct (export_all_formats_log folder save s) as [log ->]. exact Ha.
Qed.

Lemma anchored_run acts : forall s, wf s -> anchored s -> anchored (run acts s).
Proof.
  induction acts as [|a acts IH]; intros s Hwf Ha; [exact Ha|].
  simpl. apply IH; [apply wf_step; exact Hwf|apply anchored_step; assumption].
Qed.

Lemma reachable_anchored acts : anchored (run acts init).
Proof. apply anchored_run; [exact wf_init|]. intros _. reflexivity. Qed.

(** X1.  However the session was driven, the cursor is on an entry of the
    history, or is -1 on an empty history; and [add_to_history], [undo] and
    [redo], which pop and index the deque without any check of their own,
    return without raising. *)
Theorem cursor_always_on_the_history :
  forall acts : list Action,
    ((history (run acts init) = [] /\ history_index (run acts init) = -1) \/
     0 <= history_index (run acts init)
       < Z.of_nat (length (history (run acts init)))) /\
    snd (add_to_history (run acts init)) = None /\
    snd (undo (run acts init)) = None /\
    snd (redo (run acts init)) = None.
Proof.
  intros acts. pose proof (reachable_wf acts) as Hwf.
  pose proof (reachable_anchored acts) as Ha.
  set (s := run acts init) in *. pose proof (wf_index s Hwf) as Hrange.
  split.
  { destruct (Z.eq_dec (history_index s) (-1)) as [Hm|Hm].
    - left. split; [apply Ha; exact Hm|exact Hm].
    - right. lia. }
  split.
  { destruct (current_image s) as [cur|] eqn:Hcur.
    - rewrite (add_to_history_snapshot s cur Hcur Hrange). reflexivity.
    - unfold add_to_history. rewrite Hcur. reflexivity. }
  split.
  - unfold undo. destruct (Z.ltb_spec 0 (history_index s)); [|reflexivity].
    change (history (set_history_index (history_index s - 1) s))
      with (history s).
    change (history_index (set_history_index (history_index s - 1) s))
      with (history_index s - 1).
    rewrite getitem_nth_error by lia.
    destruct (nth_error_in_range (history s) (Z.to_nat (history_index s - 1)))
      as [entry ->]; [lia|]. reflexivity.
  - unfold redo.
    destruct (Z.ltb_spec (history_index s) (Z.of_nat (length (history s)) - 1));
      [|reflexivity].
    change (history (set_history_index (history_index s + 1) s))
      with (history s).
    change (history_index (set_history_index (history_index s + 1) s))
      with (history_index s + 1).
    rewrite getitem_nth_error by lia.
    destruct (nth_error_in_range (history s) (Z.to_nat (history_index s + 1)))
      as [entry ->]; [lia|]. reflexivity.
Qed.

(** ** Undo and redo around an operation *)

Lemma loaded_of_cursor s :
  wf s -> 0 <= history_index s -> exists cur, current_image s = Some cur.
Proof.
  intros Hwf Hpos. destruct (current_image s) as [cur|] eqn:Hcur; [eauto|].
  destruct (wf_loaded s Hwf Hcur) as [_ Hnil].
  pose proof (wf_index s Hwf) as Hi. rewrite Hnil in Hi. simpl in Hi. lia.
Qed.

Lemma at_cursor_nth_error s :
  0 <= history_index s < Z.of_nat (length (history s)) ->
  at_cursor s
  = option_map buffer (nth_error (history s) (Z.to_nat (history_index s))).
Proof. intros H. unfold at_cursor. rewrite getitem_nth_error by exact H. reflexivity. Qed.

Lemma undo_after_dispatch message process_func s cur :
  wf s -> current_image s = Some cur -> 0 <= history_index s ->
  let s2 := command (process_with_progress message process_func) s in
  exists entry,
    nth_error (history s) (Z.to_nat (history_index s)) = Some entry /\
    command undo s2 = moved_to (history_index s2 - 1) entry "Undo applied" s2.
Proof.
  intros Hwf Hcur Hpos s2.
  destruct (dispatch_cursor message process_func s cur Hwf Hcur)
    as (Hr & _ & _ & Hprev).
  fold s2 in Hr, Hprev. destruct (Hprev Hpos) as [H1 Hsame].
  destruct (command_undo s2) as (entry & Hentry & Hundo); [lia|].
  exists entry. split; [rewrite <- Hsame; exact Hentry|exact Hundo].
Qed.

(** X2.  One undo after a dispatched operation, whether the operation
    returned an image, returned nothing or raised, makes current the content
    of the history entry the cursor was on when the operation was requested.
    When that entry is what the image showed at that moment (after a load, a
    reset, an undo or a redo), the undo gives back exactly the image the
    operation started from. *)
Theorem undo_after_one_operation :
  forall (acts : list Action) (message : string) (process_func : ProcessFunc),
    0 <= history_index (run acts init) ->
    current_buffer
      (command undo (step (run acts init) (Dispatch message process_func)))
    = at_cursor (run acts init) /\
    (current_buffer (run acts init) = at_cursor (run acts init) ->
     current_buffer
       (command undo (step (run acts init) (Dispatch message process_func)))
     = current_buffer (run acts init)).
Proof.
  intros acts message process_func Hpos.
  pose proof (reachable_wf acts) as Hwf. set (s := run acts init) in *.
  destruct (loaded_of_cursor s Hwf Hpos) as [cur Hcur].
  destruct (undo_after_dispatch message process_func s cur Hwf Hcur Hpos)
    as (entry & Hentry & Hundo).
  assert (Heq : current_buffer
                  (command undo (step s (Dispatch message process_func)))
                = at_cursor s).
  { simpl step. rewrite Hundo.
    rewrite at_cursor_nth_error by (pose proof (wf_index s Hwf); lia).
    rewrite Hentry. reflexivity. }
  split; [exact Heq|]. intros Hclean. rewrite Heq. symmetry. exact Hclean.
Qed.

(** X3.  Two dispatched operations in a row and then one undo: the current
    content is the one the image had before the first of the two, so a
    single undo takes back both. *)
Theorem one_undo_takes_back_two_operations :
  forall (acts : list Action) (cur : Image)
         (message1 message2 : string) (first second : ProcessFunc),
    current_image (run acts init) = Some cur ->
    current_buffer
      (command undo
         (step (step (run acts init) (Dispatch message1 first))
            (Dispatch message2 second)))
    = Some (buffer cur).
Proof.
  intros acts cur message1 message2 first second Hcur.
  pose proof (reachable_wf acts) as Hwf. set (s := run acts init) in *.
  destruct (dispatch_cursor message1 first s cur Hwf Hcur)
    as (Hr1 & _ & Hlast & _).
  destruct (dispatch_frame message1 first s cur Hwf Hcur)
    as (_ & (_ & _ & _ & Hne) & _).
  simpl step.
  set (s1 := command (process_with_progress message1 first) s) in *.
  assert (Hwf1 : wf s1) by (apply wf_process_with_progress; exact Hwf).
  destruct (current_image s1) as [c1|] eqn:Hc1; [|congruence].
  destruct (undo_after_dispatch message2 second s1 c1 Hwf1 Hc1)
    as (entry & Hentry & Hundo); [lia|].
  rewrite Hundo. rewrite Hlast in Hentry. injection Hentry as <-.
  reflexivity.
Qed.

(** X4.  An operation, then undo, then redo.  When the cursor was on the
    history before the operation, the current content is the one the image
    had before the operation: redo does not bring the result of the operation
    back; the history never held it.  When the history was empty (the cursor
    is -1: the image came from a load whose size could not be read), the
    snapshot of the operation is the only entry, undo and redo do nothing and
    the result of the operation stays. *)
Theorem redo_returns_to_the_snapshot :
  forall (acts : list Action) (cur : Image) (message : string)
         (process_func : ProcessFunc),
    current_image (run acts init) = Some cur ->
    (0 <= history_index (run acts init) ->
     current_buffer
       (command redo
          (command undo
             (step (run acts init) (Dispatch message process_func))))
     = Some (buffer cur)) /\
    (history_index (run acts init) = -1 ->
     command redo
       (command undo (step (run acts init) (Dispatch message process_func)))
     = step (run acts init) (Dispatch message process_func)).
Proof.
  intros acts cur message process_func Hcur.
  pose proof (reachable_wf acts) as Hwf.
  pose proof (reachable_anchored acts) as Hanch.
  set (s := run acts init) in *.
  destruct (dispatch_cursor message process_func s cur Hwf Hcur)
    as (Hr & Htail & Hlast & Hprev).
  simpl step.
  set (s2 := command (process_with_progress message process_func) s) in *.
  split.
  - intros Hpos. destruct (Hprev Hpos) as [H1 _].
    destruct (undo_after_dispatch message process_func s cur Hwf Hcur Hpos)
      as (entry & _ & Hundo).
    fold s2 in Hundo. rewrite Hundo.
    set (s3 := moved_to (history_index s2 - 1) entry "Undo applied" s2).
    assert (Hh3 : history s3 = history s2) by reflexivity.
    assert (Hi3 : history_index s3 = history_index s2 - 1) by reflexivity.
    destruct (command_redo s3) as (entry' & Hentry' & Hredo);
      [rewrite Hh3, Hi3; lia|].
    rewrite Hredo. rewrite Hh3, Hi3 in Hentry'.
    replace (history_index s2 - 1 + 1) with (history_index s2) in Hentry'
      by lia.
    rewrite Hlast in Hentry'. injection Hentry' as <-. reflexivity.
  - intros Hm.
    destruct (dispatch_frame message process_func s cur Hwf Hcur)
      as ((Hh & _) & _).
    fold s2 in Hh. rewrite (Hanch Hm), Hm in Hh. simpl in Hh.
    assert (Hi2 : history_index s2 = 0).
    { rewrite Htail, Hh. reflexivity. }
    rewrite (command_undo_bottom s2) by lia.
    apply command_redo_top. rewrite Hh, Hi2. simpl. lia.
Qed.

(** X5.  Undo followed by redo, and redo followed by undo, whenever the
    first of the two moves the cursor, leave the history and the cursor as
    they were and make current the content of the entry under the cursor. *)
Theorem undo_redo_round_trip :
  forall acts : list Action,
    (0 < history_index (run acts init) ->
     history (command redo (command undo (run acts init)))
     = history (run acts init) /\
     history_index (command redo (command undo (run acts init)))
     = history_index (run acts init) /\
     current_buffer (command redo (command undo (run acts init)))
     = at_cursor (run acts init)) /\
    (history_index (run acts init)
     < Z.of_nat (length (history (run acts init))) - 1 ->
     history (command undo (command redo (run acts init)))
     = history (run acts init) /\
     history_index (command undo (command redo (run acts init)))
     = history_index (run acts init) /\
     current_buffer (command undo (command redo (run acts init)))
     = at_cursor (run acts init)).
Proof.
  intros acts. pose proof (reachable_wf acts) as Hwf.
  pose proof (reachable_anchored acts) as Ha.
  set (s := run acts init) in *. pose proof (wf_index s Hwf) as Hrange.
  split.
  - intros Hpos.
    destruct (command_undo s) as (entry & _ & ->); [lia|].
    set (t := moved_to (history_index s - 1) entry "Undo applied" s).
    assert (Hh : history t = history s) by reflexivity.
    assert (Hi : history_index t = history_index s - 1) by reflexivity.
    destruct (command_redo t) as (entry' & Hentry' & ->);
      [rewrite Hh, Hi; lia|].
    rewrite Hh, Hi in Hentry'.
    replace (history_index s - 1 + 1) with (history_index s) in Hentry' by lia.
    split; [exact Hh|]. split.
    + change (history_index t + 1 = history_index s). lia.
    + rewrite at_cursor_nth_error by lia. rewrite Hentry'. reflexivity.
  - intros Hroom.
    assert (Hpos : 0 <= history_index s).
    { destruct (Z.eq_dec (history_index s) (-1)) as [Hm|Hm]; [|lia].
      rewrite (Ha Hm) in Hroom. simpl in Hroom. lia. }
    destruct (command_redo s) as (entry & _ & ->); [lia|].
    set (t := moved_to (history_index s + 1) entry "Redo applied" s).
    assert (Hh : history t = history s) by reflexivity.
    assert (Hi : history_index t = history_index s + 1) by reflexivity.
    destruct (command_undo t) as (entry' & Hentry' & ->);
      [rewrite Hh, Hi; lia|].
    rewrite Hh, Hi in Hentry'.
    replace (history_index s + 1 - 1) with (history_index s) in Hentry' by lia.
    split; [exact Hh|]. split.
    + change (history_index t - 1 = history_index s). lia.
    + rewrite at_cursor_nth_error by lia. rewrite Hentry'. reflexivity.
Qed.

Lemma undo_iter_cursor n : forall s,
  wf s ->
  history (Nat.iter n (command undo) s) = history s /\
  history_index (Nat.iter n (command undo) s)
  = Z.max (Z.min 0 (history_index s)) (history_index s - Z.of_nat n) /\
  original_image (Nat.iter n (command undo) s) = original_image s /\
  session_stats (Nat.iter n (command undo) s) = session_stats s.
Proof.
  induction n as [|n IH]; intros s Hwf.
  - simpl. repeat split; try reflexivity. pose proof (wf_index s Hwf). lia.
  - rewrite Nat.iter_succ_r. pose proof (wf_index s Hwf) as Hr.
    destruct (Z.le_gt_cases (history_index s) 0) as [Hle|Hgt].
    + rewrite command_undo_bottom by exact Hle.
      destruct (IH s Hwf) as (Hh & Hi & Ho & Hs).
      repeat split; try assumption. rewrite Hi. lia.
    + destruct (command_undo s) as (entry & _ & ->); [lia|].
      set (t := moved_to (history_index s - 1) entry "Undo applied" s).
      assert (Hwt : wf t) by (apply wf_moved_to; [exact Hwf|lia]).
      destruct (IH t Hwt) as (Hh & Hi & Ho & Hs).
      assert (Hit : history_index t = history_index s - 1) by reflexivity.
      repeat split; try assumption. rewrite Hi, Hit. lia.
Qed.

Lemma redo_iter_cursor n : forall s,
  wf s ->
  history (Nat.iter n (command redo) s) = history s /\
  history_index (Nat.iter n (command redo) s)
  = Z.min (Z.of_nat (length (history s)) - 1)
      (history_index s + Z.of_nat n) /\
  original_image (Nat.iter n (command redo) s) = original_image s /\
  session_stats (Nat.iter n (command redo) s) = session_stats s.
Proof.
  induction n as [|n IH]; intros s Hwf.
  - simpl. repeat split; try reflexivity. pose proof (wf_index s Hwf). lia.
  - rewrite Nat.iter_succ_r. pose proof (wf_index s Hwf) as Hr.
    destruct (Z.le_gt_cases (Z.of_nat (length (history s)) - 1)
                (history_index s)) as [Hle|Hgt].
    + rewrite command_redo_top by exact Hle.
      destruct (IH s Hwf) as (Hh & Hi & Ho & Hs).
      repeat split; try assumption. rewrite Hi. lia.
    + destruct (command_redo s) as (entry & _ & ->); [lia|].
      set (t := moved_to (history_index s + 1) entry "Redo applied" s).
      assert (Hwt : wf t) by (apply wf_moved_to; [exact Hwf|lia]).
      destruct (IH t Hwt) as (Hh & Hi & Ho & Hs).
      assert (Hit : history_index t = history_index s + 1) by reflexivity.
      assert (Hht : history t = history s) by reflexivity.
      repeat split; try assumption. rewrite Hi, Hit, Hht. lia.
Qed.

(** X6.  Any number of undo calls, or of redo calls, changes neither the
    history, nor the original image, nor the statistics.  [n] undo calls move
    the cursor [n] places towards 0 and stop there; [n] redo calls move it
    [n] places towards the last entry and stop there. *)
Theorem undo_and_redo_only_move_the_cursor :
  forall (acts : list Action) (n : nat),
    (history (Nat.iter n (command undo) (run acts init))
     = history (run acts init) /\
     history_index (Nat.iter n (command undo) (run acts init))
     = Z.max (Z.min 0 (history_index (run acts init)))
         (history_index (run acts init) - Z.of_nat n) /\
     original_image (Nat.iter n (command undo) (run acts init))
     = original_image (run acts init) /\
     session_stats (Nat.iter n (command undo) (run acts init))
     = session_stats (run acts init)) /\
    (history (Nat.iter n (command redo) (run acts init))
     = history (run acts init) /\
     history_index (Nat.iter n (command redo) (run acts init))
     = Z.min (Z.of_nat (length (history (run acts init))) - 1)
         (history_index (run acts init) + Z.of_nat n) /\
     original_image (Nat.iter n (command redo) (run acts init))
     = original_image (run acts init) /\
     session_stats (Nat.iter n (command redo) (run acts init))
     = session_stats (run acts init)).
Proof.
  intros acts n. split.
  - apply undo_iter_cursor, reachable_wf.
  - apply redo_iter_cursor, reachable_wf.
Qed.

(** ** Reset and load *)

(** X7.  A confirmed reset of a session with an image makes the original
    content current again, replaces the whole history by one entry holding
    that content with the cursor on it, sets the sliders and the zoom back,
    and keeps the original image, the path and the statistics.  Undo and redo
    then do nothing: what was done before the reset cannot be brought back.
    A declined reset changes nothing. *)
Theorem reset_starts_over :
  forall (s : Session) (orig : Image),
    original_image s = Some orig ->
    (current_buffer (reset_image true s) = Some (buffer orig) /\
     map buffer (history (reset_image true s)) = [buffer orig] /\
     history_index (reset_image true s) = 0) /\
    (original_image (reset_image true s) = Some orig /\
     image_path (reset_image true s) = image_path s /\
     session_stats (reset_image true s) = session_stats s /\
     widgets (reset_image true s) = reset_widgets (widgets s) /\
     zoom_factor (reset_image true s) = 1%float) /\
    (command undo (reset_image true s) = reset_image true s /\
     command redo (reset_image true s) = reset_image true s) /\
    reset_image false s = s.
Proof.
  intros s orig Horig.
  assert (Hfields :
    (current_buffer (reset_image true s) = Some (buffer orig) /\
     map buffer (history (reset_image true s)) = [buffer orig] /\
     history_index (reset_image true s) = 0) /\
    (original_image (reset_image true s) = Some orig /\
     image_path (reset_image true s) = image_path s /\
     session_stats (reset_image true s) = session_stats s /\
     widgets (reset_image true s) = reset_widgets (widgets s) /\
     zoom_factor (reset_image true s) = 1%float)).
  { unfold reset_image, current_buffer. rewrite Horig. destruct s. evaluate.
    rewrite deque_append_nil. subst. repeat split. }
  destruct Hfields as ((Hc & Hh & Hi) & Hrest).
  split; [repeat split; assumption|]. split; [exact Hrest|]. split.
  - split.
    + apply command_undo_bottom. rewrite Hi. lia.
    + apply command_redo_top. rewrite Hi.
      rewrite <- (length_map buffer), Hh. simpl. lia.
  - unfold reset_image. rewrite Horig. reflexivity.
Qed.

(** X8.  A load that goes through, in any session: the original and the
    current image hold the decoded content, the history is one entry with
    that content and the cursor is on it, the sliders are neutral, the size
    entries show the dimensions of the image, the zoom is 1.0 and the count
    of loaded images goes up by one while the count of operations stays.
    Undo and redo then do nothing: nothing of the previous image is left in
    the history. *)
Theorem load_starts_over :
  forall (s : Session) (file_path : string) (b : Buffer) (size : Z),
    file_path <> "" ->
    (option_map buffer
       (original_image (open_image file_path (Returned b) (Returned size) s))
     = Some b /\
     current_buffer (open_image file_path (Returned b) (Returned size) s)
     = Some b /\
     map buffer (history (open_image file_path (Returned b) (Returned size) s))
     = [b] /\
     history_index (open_image file_path (Returned b) (Returned size) s) = 0) /\
    (image_path (open_image file_path (Returned b) (Returned size) s)
     = Some file_path /\
     widgets (open_image file_path (Returned b) (Returned size) s)
     = loaded_widgets b (widgets s) /\
     zoom_factor (open_image file_path (Returned b) (Returned size) s)
     = 1%float /\
     session_stats (open_image file_path (Returned b) (Returned size) s)
     = mkStats (images_processed (session_stats s) + 1)
         (operations_performed (session_stats s))) /\
    command undo (open_image file_path (Returned b) (Returned size) s)
    = open_image file_path (Returned b) (Returned size) s /\
    command redo (open_image file_path (Returned b) (Returned size) s)
    = open_image file_path (Returned b) (Returned size) s.
Proof.
  intros s file_path b size Hpath.
  set (t := open_image file_path (Returned b) (Returned size) s).
  destruct (open_image_loaded file_path b size s Hpath)
    as (Ho & Hc & Hh & Hi & _).
  fold t in Ho, Hc, Hh, Hi.
  split.
  { unfold current_buffer. rewrite Ho, Hc, Hh, Hi. repeat split. }
  split.
  { subst t. unfold open_image. rewrite (eqb_empty_false _ Hpath).
    destruct s. evaluate. repeat split. }
  split.
  - apply command_undo_bottom. rewrite Hi. lia.
  - apply command_redo_top. rewrite Hi, Hh. simpl. lia.
Qed.

(** X9.  A load that fails.  When the file cannot be decoded, the images,
    the history, the cursor, the sliders and the statistics are those of the
    session before and the user gets the error dialog; the path, assigned
    before the decoding, already names the file that failed.  When the file
    is decoded and its size cannot be read, the original and the current
    image are already the new ones, but the history and the cursor are still
    those of the session before, the sliders are not set back and the load is
    not counted.  An undo after it shows the entry before the cursor, an
    entry of the image that was loaded before, when the cursor is on a later
    entry than the first; with the cursor on the first entry or at -1 undo
    does nothing and the new image stays. *)
Theorem failed_load_keeps_the_history :
  forall (s : Session) (file_path : string) (exc : Exn),
    file_path <> "" ->
    (forall file_size,
       open_image file_path (Raised exc) file_size s
       = notify (showerror "Error" ("Failed to open image: " ++ exc_str exc))
           (set_image_path (Some file_path) s)) /\
    (forall b,
       current_buffer (open_image file_path (Returned b) (Raised exc) s)
       = Some b /\
       option_map buffer
         (original_image (open_image file_path (Returned b) (Raised exc) s))
       = Some b /\
       history (open_image file_path (Returned b) (Raised exc) s) = history s /\
       history_index (open_image file_path (Returned b) (Raised exc) s)
       = history_index s /\
       widgets (open_image file_path (Returned b) (Raised exc) s) = widgets s /\
       session_stats (open_image file_path (Returned b) (Raised exc) s)
       = session_stats s /\
       ui_log (open_image file_path (Returned b) (Raised exc) s)
       = ui_log s
         ++ [showerror "Error" ("Failed to open image: " ++ exc_str exc)]) /\
    (forall b,
       0 < history_index s < Z.of_nat (length (history s)) ->
       current_buffer
         (command undo (open_image file_path (Returned b) (Raised exc) s))
       = option_map buffer
           (nth_error (history s) (Z.to_nat (history_index s - 1)))) /\
    (forall b,
       history_index s <= 0 ->
       command undo (open_image file_path (Returned b) (Raised exc) s)
       = open_image file_path (Returned b) (Raised exc) s).
Proof.
  intros s file_path exc Hpath.
  assert (Hsize : forall b,
       current_buffer (open_image file_path (Returned b) (Raised exc) s)
       = Some b /\
       option_map buffer
         (original_image (open_image file_path (Returned b) (Raised exc) s))
       = Some b /\
       history (open_image file_path (Returned b) (Raised exc) s) = history s /\
       history_index (open_image file_path (Returned b) (Raised exc) s)
       = history_index s /\
       widgets (open_image file_path (Returned b) (Raised exc) s) = widgets s /\
       session_stats (open_image file_path (Returned b) (Raised exc) s)
       = session_stats s /\
       ui_log (open_image file_path (Returned b) (Raised exc) s)
       = ui_log s
         ++ [showerror "Error" ("Failed to open image: " ++ exc_str exc)]).
  { intros b. unfold open_image, current_buffer.
    rewrite (eqb_empty_false _ Hpath). destruct s. evaluate. repeat split. }
  split; [|split; [exact Hsize|split]].
  - intros file_size. unfold open_image. rewrite (eqb_empty_false _ Hpath).
    reflexivity.
  - intros b Hrange. destruct (Hsize b) as (_ & _ & Hh & Hi & _).
    set (t := open_image file_path (Returned b) (Raised exc) s) in *.
    destruct (command_undo t) as (entry & Hentry & ->);
      [rewrite Hh, Hi; exact Hrange|].
    rewrite Hh, Hi in Hentry. rewrite Hentry. reflexivity.
  - intros b Hlow. destruct (Hsize b) as (_ & _ & _ & Hi & _).
    apply command_undo_bottom. rewrite Hi. exact Hlow.
Qed.

(** ** What the actions leave alone *)

Lemma dispatch_keeps_path message process_func s cur :
  wf s -> current_image s = Some cur ->
  image_path (command (process_with_progress message process_func) s)
  = image_path s.
Proof.
  intros Hwf Hcur.
  rewrite (command_process_with_progress _ _ _ cur Hwf Hcur).
  unfold worker_state.
  match goal with |- context [process_func ?x] => destruct (process_func x)
    as [[result|]|exc] end; reflexivity.
Qed.

Lemma step_keeps_original s a :
  wf s -> is_open a = false ->
  original_image (step s a) = original_image s /\
  image_path (step s a) = image_path s.
Proof.
  intros Hwf Hopen. destruct a; try discriminate; simpl.
  - destruct (effect_cases r s Hwf) as [[log ->]|(m & f & Hne & ->)].
    + split; reflexivity.
    + destruct (current_image s) as [cur|] eqn:Hcur; [|congruence].
      destruct (dispatch_frame m f s cur Hwf Hcur) as (_ & (Ho & _) & _).
      split; [exact Ho|apply (dispatch_keeps_path m f s cur Hwf Hcur)].
  - destruct (current_image s) as [cur|] eqn:Hcur.
    + destruct (dispatch_frame message process_func s cur Hwf Hcur)
        as (_ & (Ho & _) & _).
      split; [exact Ho|].
      apply (dispatch_keeps_path message process_func s cur Hwf Hcur).
    + rewrite command_process_with_progress_empty by exact Hcur.
      split; reflexivity.
  - pose proof (wf_index s Hwf).
    destruct (Z.le_gt_cases (history_index s) 0).
    + rewrite command_undo_bottom by assumption. split; reflexivity.
    + destruct (command_undo s) as (entry & _ & ->); [lia|]. split; reflexivity.
  - pose proof (wf_index s Hwf).
    destruct (Z.le_gt_cases (Z.of_nat (length (history s)) - 1)
                (history_index s)).
    + rewrite command_redo_top by assumption. split; reflexivity.
    + destruct (command_redo s) as (entry & _ & ->); [lia|]. split; reflexivity.
  - unfold reset_image. destruct (original_image s) as [orig|] eqn:Horig;
      [|split; [exact Horig|reflexivity]].
    destruct answer; [|split; [exact Horig|reflexivity]].
    destruct s. evaluate. split; [exact Horig|reflexivity].
  - split; reflexivity.
  - destruct (export_all_formats_log folder save s) as [log ->].
    split; reflexivity.
Qed.

(** X10.  Only a load changes the original image and the path: through any
    sequence of effects, dispatched operations, undo, redo, reset, slider
    edits and exports, in whatever order and with whatever outcome, the
    original image is the very object the last load created and the path is
    the one it stored. *)
Theorem only_a_load_changes_the_original :
  forall before acts : list Action,
    forallb (fun a => negb (is_open a)) acts = true ->
    original_image (run acts (run before init))
    = original_image (run before init) /\
    image_path (run acts (run before init)) = image_path (run before init).
Proof.
  intros before acts. pose proof (reachable_wf before) as Hwf.
  generalize dependent (run before init). clear before.
  induction acts as [|a acts IH]; intros s Hwf Hall; [split; reflexivity|].
  simpl in Hall. apply andb_prop in Hall as [Ha Hall].
  apply negb_true_iff in Ha.
  destruct (step_keeps_original s a Hwf Ha) as [Ho Hp].
  destruct (IH (step s a) (wf_step s a Hwf) Hall) as [Ho' Hp'].
  simpl. split; congruence.
Qed.

(** ** Statistics *)

Lemma step_counts s a :
  wf s ->
  (operations_performed (session_stats s)
   <= operations_performed (session_stats (step s a))
   <= operations_performed (session_stats s)
      + (if is_request a then 1 else 0)) /\
  (images_processed (session_stats s)
   <= images_processed (session_stats (step s a))
   <= images_processed (session_stats s) + (if is_open a then 1 else 0)).
Proof.
  intros Hwf.
  assert (Hsame : forall t, session_stats t = session_stats s ->
    (operations_performed (session_stats s)
     <= operations_performed (session_stats t)
     <= operations_performed (session_stats s)
        + (if is_request a then 1 else 0)) /\
    (images_processed (session_stats s)
     <= images_processed (session_stats t)
     <= images_processed (session_stats s) + (if is_open a then 1 else 0))).
  { intros t ->. destruct (is_request a), (is_open a); lia. }
  assert (Hdisp : forall m f cur, current_image s = Some cur ->
    session_stats (command (process_with_progress m f) s) = session_stats s \/
    session_stats (command (process_with_progress m f) s)
    = count_operation (session_stats s)).
  { intros m f cur Hcur.
    destruct (dispatch_frame m f s cur Hwf Hcur) as (_ & _ & _ & Hst & _).
    rewrite Hst.
    match goal with |- context [f ?x] => destruct (f x) as [[result|]|exc] end;
      auto. }
  destruct a; simpl step.
  - unfold open_image. destruct (String.eqb file_path "");
      [apply Hsame; reflexivity|].
    destruct opened as [b|exc]; [destruct file_size as [size|exc]|];
      [|apply Hsame; destruct s; reflexivity..].
    simpl is_request. simpl is_open. destruct s. evaluate. simpl. lia.
  - destruct (effect_cases r s Hwf) as [[log ->]|(m & f & Hne & ->)].
    + apply Hsame. reflexivity.
    + destruct (current_image s) as [cur|] eqn:Hcur; [|congruence].
      destruct (Hdisp m f cur eq_refl) as [->| ->]; simpl; lia.
  - destruct (current_image s) as [cur|] eqn:Hcur.
    + destruct (Hdisp message process_func cur eq_refl) as [->| ->];
        simpl; lia.
    + rewrite command_process_with_progress_empty by exact Hcur.
      apply Hsame. reflexivity.
  - pose proof (wf_index s Hwf).
    destruct (Z.le_gt_cases (history_index s) 0).
    + rewrite command_undo_bottom by assumption. apply Hsame. reflexivity.
    + destruct (command_undo s) as (entry & _ & ->); [lia|].
      apply Hsame. reflexivity.
  - pose proof (wf_index s Hwf).
    destruct (Z.le_gt_cases (Z.of_nat (length (history s)) - 1)
                (history_index s)).
    + rewrite command_redo_top by assumption. apply Hsame. reflexivity.
    + destruct (command_redo s) as (entry & _ & ->); [lia|].
      apply Hsame. reflexivity.
  - apply Hsame. unfold reset_image.
    destruct (original_image s) as [orig|]; [|reflexivity].
    destruct answer; [|reflexivity]. destruct s. reflexivity.
  - apply Hsame. reflexivity.
  - destruct (export_all_formats_log folder save s) as [log ->].
    apply Hsame. reflexivity.
Qed.

Lemma run_counts acts : forall s,
  wf s ->
  (operations_performed (session_stats s)
   <= operations_performed (session_stats (run acts s))
   <= operations_performed (session_stats s) + Z.of_nat (requests acts)) /\
  (images_processed (session_stats s)
   <= images_processed (session_stats (run acts s))
   <= images_processed (session_stats s) + Z.of_nat (opens acts)).
Proof.
  induction acts as [|a acts IH]; intros s Hwf.
  - simpl. unfold requests, opens. simpl. lia.
  - destruct (step_counts s a Hwf) as [Hop Him].
    destruct (IH (step s a) (wf_step s a Hwf)) as [Hop' Him'].
    assert (Hr : requests (a :: acts)
                 = ((if is_request a then 1 else 0) + requests acts)%nat).
    { unfold requests. simpl. destruct (is_request a); reflexivity. }
    assert (Ho : opens (a :: acts)
                 = ((if is_open a then 1 else 0) + opens acts)%nat).
    { unfold opens. simpl. destruct (is_open a); reflexivity. }
    rewrite Hr, Ho. simpl run.
    destruct (is_request a), (is_open a); lia.
Qed.

(** X11.  The two counters of the session statistics never go down.  Over
    any sequence of actions the count of operations grows by at most the
    number of effect requests in it, and the count of images by at most the
    number of loads asked for; undo, redo, reset, slider edits and exports do
    not count.  From the start of the session both are therefore within
    those numbers. *)
Theorem statistics_count_at_most_the_requests :
  forall before acts : list Action,
    (operations_performed (session_stats (run before init))
     <= operations_performed (session_stats (run acts (run before init)))
     <= operations_performed (session_stats (run before init))
        + Z.of_nat (requests acts)) /\
    (images_processed (session_stats (run before init))
     <= images_processed (session_stats (run acts (run before init)))
     <= images_processed (session_stats (run before init))
        + Z.of_nat (opens acts)) /\
    0 <= operations_performed (session_stats (run acts init))
      <= Z.of_nat (requests acts) /\
    0 <= images_processed (session_stats (run acts init))
      <= Z.of_nat (opens acts).
Proof.
  intros before acts.
  destruct (run_counts acts (run before init) (reachable_wf before))
    as [Hop Him].
  destruct (run_counts acts init wf_init) as [Hop0 Him0].
  simpl in Hop0, Him0. repeat split; lia.
Qed.

(** ** Once loaded, always loaded *)

Lemma step_keeps_loaded s a :
  wf s -> current_image s <> None -> current_image (step s a) <> None.
Proof.
  intros Hwf Hcur. destruct a; simpl step.
  - unfold open_image. destruct (String.eqb file_path ""); [exact Hcur|].
    destruct opened as [b|exc]; [destruct file_size as [size|exc]|];
      destruct s; evaluate; solve [discriminate | exact Hcur].
  - destruct (effect_cases r s Hwf) as [[log ->]|(m & f & Hne & ->)].
    + destruct s. exact Hcur.
    + destruct (current_image s) as [cur|] eqn:Hc; [|congruence].
      destruct (dispatch_frame m f s cur Hwf Hc) as (_ & (_ & _ & _ & H) & _).
      exact H.
  - destruct (current_image s) as [cur|] eqn:Hc; [|congruence].
    destruct (dispatch_frame message process_func s cur Hwf Hc)
      as (_ & (_ & _ & _ & H) & _).
    exact H.
  - pose proof (wf_index s Hwf).
    destruct (Z.le_gt_cases (history_index s) 0).
    + rewrite command_undo_bottom by assumption. exact Hcur.
    + destruct (command_undo s) as (entry & _ & ->); [lia|]. discriminate.
  - pose proof (wf_index s Hwf).
    destruct (Z.le_gt_cases (Z.of_nat (length (history s)) - 1)
                (history_index s)).
    + rewrite command_redo_top by assumption. exact Hcur.
    + destruct (command_redo s) as (entry & _ & ->); [lia|]. discriminate.
  - unfold reset_image. destruct (original_image s) as [orig|]; [|exact Hcur].
    destruct answer; [|exact Hcur]. destruct s. discriminate.
  - exact Hcur.
  - destruct (export_all_formats_log folder save s) as [log ->].
    destruct s. exact Hcur.
Qed.

(** X12.  Nothing unloads the image.  At every point of a session the
    current image and the original image are either both there or both
    missing, and once an image is loaded every later action (a failing load
    included) leaves one loaded. *)
Theorem loaded_stays_loaded :
  forall before acts : list Action,
    (current_image (run before init) = None
     <-> original_image (run before init) = None) /\
    (current_image (run before init) <> None ->
     current_image (run acts (run before init)) <> None /\
     original_image (run acts (run before init)) <> None).
Proof.
  intros before acts. split.
  - pose proof (reachable_wf before) as Hwf. split.
    + intros H. apply (wf_loaded _ Hwf H).
    + apply (wf_original _ Hwf).
  - intros Hcur.
    assert (Hlater : current_image (run acts (run before init)) <> None).
    { pose proof (reachable_wf before) as Hwf.
      generalize dependent (run before init). clear before.
      induction acts as [|a acts IH]; intros s Hcur Hwf; [exact Hcur|].
      simpl. apply IH; [apply step_keeps_loaded; assumption|].
      apply wf_step; exact Hwf. }
    split; [exact Hlater|].
    intros Horig. apply Hlater.
    assert (Hwf : wf (run acts (run before init))).
    { rewrite <- run_app. apply reachable_wf. }
    apply (wf_original _ Hwf Horig).
Qed.

(** ** Where the watermark goes *)

Lemma corner_cases position :
  (corner position = true /\
   (position = "bottom-right" \/ position = "bottom-left" \/
    position = "top-right" \/ position = "top-left")) \/
  (corner position = false /\
   String.eqb position "bottom-right" = false /\
   String.eqb position "bottom-left" = false /\
   String.eqb position "top-right" = false /\
   String.eqb position "top-left" = false).
Proof.
  unfold corner.
  destruct (String.eqb_spec position "bottom-right"); [left; auto|].
  destruct (String.eqb_spec position "bottom-left"); [left; auto|].
  destruct (String.eqb_spec position "top-right"); [left; auto|].
  destruct (String.eqb_spec position "top-left"); [left; auto 6|].
  right. auto.
Qed.

(** X13.  The plate behind the watermark is placed without regard to
    whether it fits.  Both end points handed to [draw.rectangle], which fills
    them too, are pixels of the image exactly when the image is wider and
    higher than the text by at least [margin + padding] on the side of an
    edge the position names as right or bottom, by at least
    [margin + padding + 1] on the side of an edge it names as left or top,
    and by at least [2 * padding + 1] each way for the centre, the branch
    that every other value of the position variable takes. *)
Theorem watermark_plate_fits_only_in_a_large_enough_image :
  forall (width height x0 y0 x1 y1 : Z),
    let bbox := (x0, y0, x1, y1) in
    let text_width := x1 - x0 in
    let text_height := y1 - y0 in
    (rectangle_inside (drawn_plate "bottom-right" width height bbox)
       width height
     <-> text_width + margin + padding <= width /\
         text_height + margin + padding <= height) /\
    (rectangle_inside (drawn_plate "bottom-left" width height bbox)
       width height
     <-> text_width + margin + padding + 1 <= width /\
         text_height + margin + padding <= height) /\
    (rectangle_inside (drawn_plate "top-right" width height bbox)
       width height
     <-> text_width + margin + padding <= width /\
         text_height + margin + padding + 1 <= height) /\
    (rectangle_inside (drawn_plate "top-left" width height bbox)
       width height
     <-> text_width + margin + padding + 1 <= width /\
         text_height + margin + padding + 1 <= height) /\
    (forall position : string,
       corner position = false ->
       (rectangle_inside (drawn_plate position width height bbox)
          width height
        <-> text_width + 2 * padding + 1 <= width /\
            text_height + 2 * padding + 1 <= height)).
Proof.
  intros width height x0 y0 x1 y1 bbox text_width text_height.
  subst bbox text_width text_height.
  repeat split; try (cbv -[Z.add Z.sub Z.le Z.mul] in *; lia).
  all: destruct (corner_cases position)
         as [[Hc _]|(_ & Hbr & Hbl & Htr & Htl)]; [congruence|].
  all: unfold drawn_plate, add_wm_layout, text_extent, add_wm_xy in *;
    rewrite Hbr, Hbl, Htr, Htl in *;
    cbv -[Z.add Z.sub Z.le Z.mul Z.div] in *;
    Z.div_mod_to_equations; lia.
Qed.

(** X14.  Where the watermark text ends up.  [add_wm] measures the text with
    [draw.textbbox((0, 0), ...)], keeps its extent and drops its origin
    [(x0, y0)].  The bounding box of the text as drawn is therefore not
    [margin] away from the two edges of its corner but [margin] plus the
    origin from a left or upper edge and [margin] minus the origin from a
    right or lower edge; on the far side it is what the image leaves over,
    negative when the text does not fit.  For every other value of the
    position variable the text is centred up to the origin: the gap on the
    right (below) is the gap on the left (above) less twice the origin, or
    one pixel more. *)
Theorem watermark_anchoring :
  forall (width height x0 y0 x1 y1 : Z),
    let bbox := (x0, y0, x1, y1) in
    let text_width := x1 - x0 in
    let text_height := y1 - y0 in
    gaps (drawn_text "bottom-right" width height bbox) width height
    = (width - text_width - margin + x0, height - text_height - margin + y0,
       margin - x0, margin - y0) /\
    gaps (drawn_text "bottom-left" width height bbox) width height
    = (margin + x0, height - text_height - margin + y0,
       width - text_width - margin - x0, margin - y0) /\
    gaps (drawn_text "top-right" width height bbox) width height
    = (width - text_width - margin + x0, margin + y0,
       margin - x0, height - text_height - margin - y0) /\
    gaps (drawn_text "top-left" width height bbox) width height
    = (margin + x0, margin + y0,
       width - text_width - margin - x0,
       height - text_height - margin - y0) /\
    (forall position : string,
       corner position = false ->
       let '(on_left, above, on_right, below) :=
         gaps (drawn_text position width height bbox) width height in
       0 <= on_right - on_left + 2 * x0 <= 1 /\
       0 <= below - above + 2 * y0 <= 1).
Proof.
  intros width height x0 y0 x1 y1 bbox text_width text_height.
  subst bbox text_width text_height.
  assert (Hpair : forall a b c d a' b' c' d' : Z,
            a = a' -> b = b' -> c = c' -> d = d' ->
            (a, b, c, d) = (a', b', c', d')) by (intros; subst; reflexivity).
  split; [|split; [|split; [|split]]].
  1-4: cbv -[Z.add Z.sub]; apply Hpair; lia.
  intros position Hc.
  destruct (corner_cases position)
    as [[Hc' _]|(_ & Hbr & Hbl & Htr & Htl)]; [congruence|].
  unfold drawn_text, add_wm_layout, text_extent, add_wm_xy.
  rewrite Hbr, Hbl, Htr, Htl.
  cbv -[Z.add Z.sub Z.le Z.mul Z.div].
  pose proof (Z.div_mod (width - (x1 - x0)) 2 ltac:(lia)).
  pose proof (Z.mod_pos_bound (width - (x1 - x0)) 2 ltac:(lia)).
  pose proof (Z.div_mod (height - (y1 - y0)) 2 ltac:(lia)).
  pose proof (Z.mod_pos_bound (height - (y1 - y0)) 2 ltac:(lia)).
  lia.
Qed.

End Further.

(** * Further concrete runs *)

#[local] Existing Instance sample_library.

(** After the load and two blurs the cursor is on the last of three
    entries. *)
Lemma undo_after_one_operation_witness :
  0 <= history_index (run two_blurs init) /\
  current_buffer
    (command undo
       (step (run two_blurs init) (Dispatch "Painting..." paint_over)))
  = at_cursor (run two_blurs init) /\
  (current_buffer (run two_blurs init) = at_cursor (run two_blurs init) ->
   current_buffer
     (command undo
        (step (run two_blurs init) (Dispatch "Painting..." paint_over)))
   = current_buffer (run two_blurs init)).
Proof.
  assert (H1 : 0 <= history_index (run two_blurs init))
    by (vm_compute; intro; discriminate).
  split; [exact H1|].
  exact (undo_after_one_operation two_blurs "Painting..." paint_over H1).
Defined.

(** Two more operations on the twice blurred photo, then one undo. *)
Lemma one_undo_takes_back_two_operations_witness :
  current_image (run two_blurs init) = Some blurred_twice /\
  current_buffer
    (command undo
       (step (step (run two_blurs init) (Dispatch "Painting..." paint_over))
          (Dispatch "Painting again..." paint_over)))
  = Some (buffer blurred_twice).
Proof.
  assert (H1 : current_image (run two_blurs init) = Some blurred_twice)
    by (vm_compute; reflexivity).
  split; [exact H1|].
  exact (one_undo_takes_back_two_operations two_blurs blurred_twice
           "Painting..." "Painting again..." paint_over paint_over H1).
Defined.

(** One more operation, then undo and redo: on the twice blurred photo, and
    on the photo whose size could not be read. *)
Lemma redo_returns_to_the_snapshot_witness :
  (current_image (run two_blurs init) = Some blurred_twice /\
   0 <= history_index (run two_blurs init) /\
   current_buffer
     (command redo
        (command undo
           (step (run two_blurs init) (Dispatch "Painting..." paint_over))))
   = Some (buffer blurred_twice)) /\
  (current_image (run size_failed_load init) = Some (mkImage 1 two_pixels) /\
   history_index (run size_failed_load init) = -1 /\
   command redo
     (command undo
        (step (run size_failed_load init)
           (Dispatch "Painting..." paint_over)))
   = step (run size_failed_load init) (Dispatch "Painting..." paint_over)).
Proof.
  assert (H1 : current_image (run two_blurs init) = Some blurred_twice)
    by (vm_compute; reflexivity).
  assert (H2 : 0 <= history_index (run two_blurs init))
    by (vm_compute; intro; discriminate).
  assert (H3 : current_image (run size_failed_load init)
               = Some (mkImage 1 two_pixels))
    by (vm_compute; reflexivity).
  assert (H4 : history_index (run size_failed_load init) = -1)
    by (vm_compute; reflexivity).
  split.
  - split; [exact H1|]. split; [exact H2|].
    exact (proj1 (redo_returns_to_the_snapshot two_blurs blurred_twice
                    "Painting..." paint_over H1) H2).
  - split; [exact H3|]. split; [exact H4|].
    exact (proj2 (redo_returns_to_the_snapshot size_failed_load
                    (mkImage 1 two_pixels) "Painting..." paint_over H3) H4).
Defined.

(** After two blurs and one undo the cursor is on the middle one of three
    entries: both round trips are possible. *)
Lemma undo_redo_round_trip_witness :
  0 < history_index (run after_one_undo init) /\
  history_index (run after_one_undo init)
  < Z.of_nat (length (history (run after_one_undo init))) - 1 /\
  (history (command redo (command undo (run after_one_undo init)))
   = history (run after_one_undo init) /\
   history_index (command redo (command undo (run after_one_undo init)))
   = history_index (run after_one_undo init) /\
   current_buffer (command redo (command undo (run after_one_undo init)))
   = at_cursor (run after_one_undo init)) /\
  (history (command undo (command redo (run after_one_undo init)))
   = history (run after_one_undo init) /\
   history_index (command undo (command redo (run after_one_undo init)))
   = history_index (run after_one_undo init) /\
   current_buffer (command undo (command redo (run after_one_undo init)))
   = at_cursor (run after_one_undo init)).
Proof.
  assert (H1 : 0 < history_index (run after_one_undo init))
    by (vm_compute; reflexivity).
  assert (H2 : history_index (run after_one_undo init)
               < Z.of_nat (length (history (run after_one_undo init))) - 1)
    by (vm_compute; reflexivity).
  split; [exact H1|]. split; [exact H2|].
  exact (conj (proj1 (undo_redo_round_trip after_one_undo) H1)
              (proj2 (undo_redo_round_trip after_one_undo) H2)).
Defined.

(** Resetting the session that has just loaded the photo. *)
Lemma reset_starts_over_witness :
  original_image fresh_session = Some (mkImage 0 two_pixels) /\
  (current_buffer (reset_image true fresh_session) = Some two_pixels /\
   map buffer (history (reset_image true fresh_session)) = [two_pixels] /\
   history_index (reset_image true fresh_session) = 0) /\
  (original_image (reset_image true fresh_session)
   = Some (mkImage 0 two_pixels) /\
   image_path (reset_image true fresh_session) = image_path fresh_session /\
   session_stats (reset_image true fresh_session)
   = session_stats fresh_session /\
   widgets (reset_image true fresh_session)
   = reset_widgets (widgets fresh_session) /\
   zoom_factor (reset_image true fresh_session) = 1%float) /\
  (command undo (reset_image true fresh_session)
   = reset_image true fresh_session /\
   command redo (reset_image true fresh_session)
   = reset_image true fresh_session) /\
  reset_image false fresh_session = fresh_session.
Proof.
  assert (H1 : original_image fresh_session = Some (mkImage 0 two_pixels))
    by (vm_compute; reflexivity).
  split; [exact H1|].
  exact (reset_starts_over fresh_session (mkImage 0 two_pixels) H1).
Defined.

(** Loading a second file into the session that holds the photo. *)
Lemma load_starts_over_witness :
  "other.png" <> "" /\
  (option_map buffer (original_image reloaded) = Some other_pixels /\
   current_buffer reloaded = Some other_pixels /\
   map buffer (history reloaded) = [other_pixels] /\
   history_index reloaded = 0) /\
  (image_path reloaded = Some "other.png" /\
   widgets reloaded = loaded_widgets other_pixels (widgets fresh_session) /\
   zoom_factor reloaded = 1%float /\
   session_stats reloaded
   = mkStats (images_processed (session_stats fresh_session) + 1)
       (operations_performed (session_stats fresh_session))) /\
  command undo reloaded = reloaded /\
  command redo reloaded = reloaded.
Proof.
  assert (H1 : "other.png" <> "") by discriminate.
  split; [exact H1|].
  exact (load_starts_over fresh_session "other.png" other_pixels 3 H1).
Defined.

(** A second file whose size cannot be read.  Chosen after two blurs of the
    photo, the undo that follows shows the photo blurred once; chosen right
    after the photo was loaded, the undo that follows does nothing. *)
Lemma failed_load_keeps_the_history_witness :
  "other.png" <> "" /\
  (0 < history_index (run two_blurs init)
     < Z.of_nat (length (history (run two_blurs init))) /\
   current_buffer
     (command undo
        (open_image "other.png" (Returned other_pixels) unreadable_size
           (run two_blurs init)))
   = option_map buffer
       (nth_error (history (run two_blurs init))
          (Z.to_nat (history_index (run two_blurs init) - 1)))) /\
  (history_index fresh_session <= 0 /\
   command undo
     (open_image "other.png" (Returned other_pixels) unreadable_size
        fresh_session)
   = open_image "other.png" (Returned other_pixels) unreadable_size
       fresh_session).
Proof.
  assert (H1 : "other.png" <> "") by discriminate.
  assert (H2 : 0 < history_index (run two_blurs init)
               < Z.of_nat (length (history (run two_blurs init))))
    by (vm_compute; split; reflexivity).
  assert (H3 : history_index fresh_session <= 0)
    by (vm_compute; intro; discriminate).
  split; [exact H1|]. split.
  - split; [exact H2|].
    exact (proj1 (proj2 (proj2 (failed_load_keeps_the_history
                                  (run two_blurs init) "other.png"
                                  (mkExn OSError "stat failed") H1)))
             other_pixels H2).
  - split; [exact H3|].
    exact (proj2 (proj2 (proj2 (failed_load_keeps_the_history
                                  fresh_session "other.png"
                                  (mkExn OSError "stat failed") H1)))
             other_pixels H3).
Defined.

(** An effect, undo, redo, a reset and an export after the load. *)
Lemma only_a_load_changes_the_original_witness :
  forallb (fun a => negb (is_open a)) no_load = true /\
  original_image (run no_load (run [load_photo] init))
  = original_image (run [load_photo] init) /\
  image_path (run no_load (run [load_photo] init))
  = image_path (run [load_photo] init).
Proof.
  assert (H1 : forallb (fun a => negb (is_open a)) no_load = true)
    by (vm_compute; reflexivity).
  split; [exact H1|].
  exact (only_a_load_changes_the_original [load_photo] no_load H1).
Defined.

(** A load that fails, a reset and an undo after the photo was loaded. *)
Lemma loaded_stays_loaded_witness :
  current_image (run [load_photo] init) <> None /\
  current_image (run failed_reload (run [load_photo] init)) <> None /\
  original_image (run failed_reload (run [load_photo] init)) <> None.
Proof.
  assert (H1 : current_image (run [load_photo] init) <> None)
    by (vm_compute; discriminate).
  split; [exact H1|].
  exact (proj2 (loaded_stays_loaded [load_photo] failed_reload) H1).
Defined.

(** The short text centred on an image of 100 x 50 pixels: the plate
    fits. *)
Lemma watermark_plate_fits_only_in_a_large_enough_image_witness :
  corner "center" = false /\
  (rectangle_inside (drawn_plate "center" 100 50 short_text) 100 50
   <-> 62 - 0 + 2 * padding + 1 <= 100 /\ 11 - 2 + 2 * padding + 1 <= 50).
Proof.
  assert (H1 : corner "center" = false) by reflexivity.
  split; [exact H1|].
  exact (proj2 (proj2 (proj2 (proj2
           (watermark_plate_fits_only_in_a_large_enough_image
              100 50 0 2 62 11)))) "center" H1).
Defined.

(** The short text centred on an image of 100 x 50 pixels: it is drawn two
    rows below the middle. *)
Lemma watermark_anchoring_witness :
  corner "center" = false /\
  gaps (drawn_text "center" 100 50 short_text) 100 50 = (19, 22, 19, 19) /\
  0 <= 19 - 19 + 2 * 0 <= 1 /\ 0 <= 19 - 22 + 2 * 2 <= 1.
Proof.
  assert (H1 : corner "center" = false) by reflexivity.
  split; [exact H1|]. split; [reflexivity|].
  exact (proj2 (proj2 (proj2 (proj2
           (watermark_anchoring 100 50 0 2 62 11)))) "center" H1).
Defined.
